(** * get_publications.py: retrieval, normalisation and batching of OpenAlex documents

    A shallow embedding of [src/get_publications.py].  Python dictionaries are
    association lists in insertion order (the order in which Python iterates
    them); strings are [string]; Python integers are [Z]; the values a
    generator yields are collected in a list, together with the way the
    generator ended. *)

From Stdlib Require Import List String Ascii ZArith QArith Lia Bool Arith.
From Stdlib Require Import Permutation Sorted.
From Stdlib Require Import DecimalString DecimalPos DecimalZ.
Import ListNotations.

Close Scope Q_scope.
Local Open Scope string_scope.
Local Open Scope nat_scope.
Local Open Scope list_scope.

(** ** Python dictionaries *)

Module PyDict.

Section Dict.
Context {V : Type}.

(** Entries in insertion order. A well-formed dictionary has no key twice. *)
Definition dict := list (string * V).

Definition keys (d : dict) : list string := map fst d.

Definition values (d : dict) : list V := map snd d.

Definition wf (d : dict) : Prop := NoDup (keys d).

(** [d.get(k)] *)
Fixpoint get (k : string) (d : dict) : option V :=
  match d with
  | [] => None
  | (k', v) :: r => if String.eqb k' k then Some v else get k r
  end.

(** [d.get(k, dflt)] *)
Definition get_default (k : string) (dflt : V) (d : dict) : V :=
  match get k d with
  | Some v => v
  | None => dflt
  end.

(** [d[k] = v]: an existing key keeps its place, a new one goes last. *)
Fixpoint set (k : string) (v : V) (d : dict) : dict :=
  match d with
  | [] => [(k, v)]
  | (k', v') :: r =>
      if String.eqb k' k then (k', v) :: r else (k', v') :: set k v r
  end.
End Dict.

Arguments dict V : clear implicits.

End PyDict.

Import PyDict.

(** ** Exceptions and the ways a computation ends *)

Inductive exn : Type :=
| TypeError        (* [str + None] *)
| LibraryError.    (* raised inside the tagging library *)

Inductive result (A : Type) : Type :=
| Ok (a : A)
| Raise (e : exn).

Arguments Ok {A} a.
Arguments Raise {A} e.

(** How a generator, or the run, ended: by returning, by an exception that
    nothing caught, or not within the steps granted. *)
Inductive outcome : Type :=
| Finished
| Raised (e : exn)
| OutOfFuel.

(** ** The inverted-index reconstruction: [DocRetriever.build_abstract] *)

(** [i in v] for a list of positions. *)
Definition pos_in (i : nat) (v : list Z) : bool :=
  existsb (Z.eqb (Z.of_nat i)) v.

(** [abstract_idx[word]] for a word of the index. *)
Definition positions (word : string) (abstract_idx : dict (list Z)) : list Z :=
  get_default word [] abstract_idx.

(** [sum([len(v) for v in abstract_idx.values()])] *)
Definition n_words (abstract_idx : dict (list Z)) : nat :=
  list_sum (map (@List.length Z) (values abstract_idx)).

(** The inner loop: [for word in abstract_idx: if i in abstract_idx[word]: ...] *)
Definition build_abstract_at (abstract_idx : dict (list Z)) (text : string)
    (i : nat) : string :=
  fold_left
    (fun text word =>
       if pos_in i (positions word abstract_idx)
       then (text ++ (word ++ " "))%string
       else text)
    (keys abstract_idx) text.

Definition build_abstract (abstract_idx : dict (list Z)) : string :=
  fold_left (build_abstract_at abstract_idx) (seq 0 (n_words abstract_idx))
    ""%string.

(** The words [build_abstract] appends, in the order it appends them. *)
Definition words_at (abstract_idx : dict (list Z)) (i : nat) : list string :=
  filter (fun word => pos_in i (positions word abstract_idx)) (keys abstract_idx).

Definition abstract_words (abstract_idx : dict (list Z)) : list string :=
  flat_map (words_at abstract_idx) (seq 0 (n_words abstract_idx)).

(** Each word followed by one space. *)
Definition spaced (ws : list string) : string :=
  fold_right (fun w acc => (w ++ " " ++ acc)%string) ""%string ws.

(** The position lists of an index hold each of [0 .. N-1] once, taken
    together, and nothing else. *)
Definition covers (abstract_idx : dict (list Z)) (N : nat) : Prop :=
  Permutation (List.concat (values abstract_idx)) (map Z.of_nat (seq 0 N)).

(** ** The separator between abstract and title *)

(** [s] ends with [suffix]. *)
Definition ends_with (s suffix : string) : Prop :=
  exists p, s = (p ++ suffix)%string.

(** [s[-2:]]: the last two characters, or all of [s] when it is shorter. *)
Definition last2 (s : string) : string :=
  substring (String.length s - 2) 2 s.

(** Lines 67-68: [if abstract[-2:] != '. ': abstract += '. '] *)
Definition terminate (abstract : string) : string :=
  if String.eqb (last2 abstract) ". " then abstract
  else (abstract ++ ". ")%string.

(** [abstract + title]; a document whose [display_name] is [null] has
    [title = None], and [str + None] raises. *)
Definition sentence_text (title : option string) (abstract_idx : dict (list Z))
    : result string :=
  let abstract := terminate (build_abstract abstract_idx) in
  match title with
  | Some t => Ok (abstract ++ t)%string
  | None => Raise TypeError
  end.

(** ** Counting and ranking: lines 79-84 of [process_texts] *)

(** [Counter(lemmas)]: each element in turn does
    [mapping[elem] = mapping.get(elem, 0) + 1]. *)
Definition Counter (lemmas : list string) : dict nat :=
  fold_left (fun c elem => set elem (get_default elem 0 c + 1) c) lemmas [].

(** [word in self.vocab] *)
Definition in_vocab (vocab : list string) (word : string) : bool :=
  existsb (String.eqb word) vocab.

(** [for word in lemmas_cnt: if word in self.vocab: vocab_lemmas[word] = lemmas_cnt[word]] *)
Definition vocab_counts (vocab : list string) (lemmas_cnt : dict nat) : dict nat :=
  fold_left
    (fun vocab_lemmas word =>
       if in_vocab vocab word
       then set word (get_default word 0 lemmas_cnt) vocab_lemmas
       else vocab_lemmas)
    (keys lemmas_cnt) [].

(** [most_common()] is [sorted(self.items(), key=itemgetter(1), reverse=True)]:
    a stable sort by descending count.  An item is put behind the items of a
    larger count and in front of all others. *)
Fixpoint insert_desc (x : string * nat) (l : list (string * nat))
    : list (string * nat) :=
  match l with
  | [] => [x]
  | y :: r => if snd x <? snd y then y :: insert_desc x r else x :: y :: r
  end.

Definition most_common (c : dict nat) : list (string * nat) :=
  fold_right insert_desc [] c.

(** The order [most_common] gives to items that come in an order [before]:
    by descending count, and as they came where counts agree. *)
Definition sorted_before (before : string * nat -> string * nat -> Prop)
    (x y : string * nat) : Prop :=
  snd y < snd x \/ (snd x = snd y /\ before x y).

(** [[tup[0] for tup in vocab_lemmas.most_common()]] *)
Definition rank (vocab : list string) (lemmas : list string) : list string :=
  map fst (most_common (vocab_counts vocab (Counter lemmas))).

(** [lst.index(w)], with [len(lst)] where Python raises. *)
Fixpoint index_of (w : string) (l : list string) : nat :=
  match l with
  | [] => 0
  | x :: r => if String.eqb x w then 0 else S (index_of w r)
  end.

(** How often [w] occurs in [l]. *)
Definition occurrences (l : list string) (w : string) : nat :=
  count_occ string_dec l w.

(** [u] is ranked before [v]: it occurs more often, or as often and for the
    first time earlier. *)
Definition ranked_before (lemmas : list string) (u v : string) : Prop :=
  occurrences lemmas v < occurrences lemmas u
  \/ (occurrences lemmas u = occurrences lemmas v
      /\ index_of u lemmas < index_of v lemmas).

(** ** The retriever *)

Inductive wordnet_pos : Type := ADJ | NOUN | VERB | ADV.

(** [self.tag_dict] *)
Definition tag_dict (label : string) : option wordnet_pos :=
  if String.eqb label "ADJ" then Some ADJ
  else if String.eqb label "NOUN" then Some NOUN
  else if String.eqb label "VERB" then Some VERB
  else if String.eqb label "ADV" then Some ADV
  else None.

(** What [DocRetriever.__init__] loads.  The tagging and lemmatising
    libraries and [str.lower] are taken as they come: [tagger] stands for
    [Sentence(text)] followed by [self.tagger.predict], giving each token's
    text and the value of its first label, or the exception raised. *)
Record DocRetriever : Type := {
  vocab : list string;
  tagger : string -> result (list (string * string));
  lemmatizer : string -> wordnet_pos -> string;
  str_lower : string -> string
}.

(** The body of [for token in sentence]. *)
Definition lemma_of (self : DocRetriever) (token : string * string) : string :=
  match tag_dict (snd token) with
  | Some pos => lemmatizer self (str_lower self (fst token)) pos
  | None => str_lower self (fst token)
  end.

Definition process_texts (self : DocRetriever) (title : option string)
    (abstract_idx : dict (list Z)) : result (list string) :=
  match sentence_text title abstract_idx with
  | Raise e => Raise e
  | Ok text =>
      match tagger self text with
      | Raise e => Raise e
      | Ok sentence => Ok (rank (vocab self) (map (lemma_of self) sentence))
      end
  end.

(** ** The fetcher: [DocRetriever.get_docs] *)

Record concept : Type := { id : string; score : Q }.

(** A document of a page; [None] is JSON's [null]. *)
Record document : Type := {
  display_name : option string;
  abstract_inverted_index : option (dict (list Z));
  concepts : list concept
}.

(** A page response: without or with the field ['results']. *)
Inductive response : Type :=
| NoResults
| Results (docs : list document).

(** What [get_docs] yields. *)
Record processed : Type := {
  data : list string;
  subjects : dict Q
}.

(** [{s['id']: s['score'] for s in doc['concepts']}] *)
Definition concept_scores (cs : list concept) : dict Q :=
  fold_left (fun d s => set (id s) (score s) d) cs [].

(** How the scan of one page ends: the page is used up, or the generator
    returned or raised inside it. *)
Inductive page_end : Type :=
| NextPage (yielded : Z)
| Stop (o : outcome).

(** [for doc in res['results']: ...] with the documents yielded on the way. *)
Fixpoint scan_page (self : DocRetriever) (n yielded : Z) (docs : list document)
    : list processed * page_end :=
  match docs with
  | [] => ([], NextPage yielded)
  | doc :: rest =>
      match abstract_inverted_index doc with
      | None => scan_page self n yielded rest
      | Some abstract =>
          match process_texts self (display_name doc) abstract with
          | Raise e => ([], Stop (Raised e))
          | Ok lemmas =>
              let y := {| data := lemmas;
                          subjects := concept_scores (concepts doc) |} in
              let yielded := (yielded + 1)%Z in
              if (yielded =? n)%Z then ([y], Stop Finished)
              else
                let (ys, e) := scan_page self n yielded rest in
                (y :: ys, e)
          end
      end
  end.

(** The suffix line 40 adds to the URL. *)
Definition page_query : string := ",type:journal-article&page=".

(** [while yielded < n: ...].  [req_get url page] is the JSON of
    [req.get(f'{url}{page}')]; each turn of the loop costs one unit of fuel. *)
Fixpoint get_docs_from (self : DocRetriever) (req_get : string -> Z -> response)
    (url : string) (n : Z) (fuel : nat) (yielded page : Z)
    : list processed * outcome :=
  match fuel with
  | O => ([], OutOfFuel)
  | S fuel =>
      if (yielded <? n)%Z then
        match req_get url page with
        | NoResults => ([], Finished)
        | Results docs =>
            match scan_page self n yielded docs with
            | (ys, Stop o) => (ys, o)
            | (ys, NextPage yielded) =>
                let (zs, o) :=
                  get_docs_from self req_get url n fuel yielded (page + 1) in
                (ys ++ zs, o)
            end
        end
      else ([], Finished)
  end.

Definition get_docs (self : DocRetriever) (req_get : string -> Z -> response)
    (fuel : nat) (url : string) (n : Z) : list processed * outcome :=
  get_docs_from self req_get (url ++ page_query)%string n fuel 0%Z 1%Z.

(** ** The run: [get_done_subjects] and [main] *)

(** A batch, and a persisted unit: the documents kept for each subject. *)
Definition batch_t : Type := dict (list processed).

(** The attributes of a subject in [subjects.json] that the run reads. *)
Record subject_data : Type := { works_api_url : string }.

(** [docs_dir] lists the files of ['data/openalex/docs'] with the object each
    one holds. *)
Definition get_done_subjects (docs_dir : list (string * batch_t)) : list string :=
  fold_left (fun done file => done ++ keys (snd file)) docs_dir [].

(** [subject in done] *)
Definition is_done (done : list string) (subject : string) : bool :=
  existsb (String.eqb subject) done.

(** The variables of [main]; [dumped] are the files written so far, each with
    its number. *)
Record run_state : Type := {
  batch : batch_t;
  cnt : Z;
  file_nr : Z;
  dumped : list (Z * batch_t)
}.

Definition start : run_state :=
  {| batch := []; cnt := 0%Z; file_nr := 1%Z; dumped := [] |}.

(** [for doc in ...: batch[subject].append(doc)] *)
Definition collect (subject : string) (docs : list processed) (b : batch_t)
    : batch_t :=
  fold_left (fun b doc => set subject (get_default subject [] b ++ [doc]) b)
    docs b.

(** Lines 111-120: one subject that is not done.  When the generator does
    not return, the run ends there and line 115 is never reached. *)
Definition do_subject (self : DocRetriever) (req_get : string -> Z -> response)
    (fuel : nat) (n_docs n_file : Z) (st : run_state) (subject : string)
    (sdata : subject_data) : run_state * outcome :=
  let b := set subject [] (batch st) in
  let (docs, o) := get_docs self req_get fuel (works_api_url sdata) n_docs in
  let b := collect subject docs b in
  match o with
  | Finished =>
      let c := (cnt st + Z.of_nat (List.length (get_default subject [] b)))%Z in
      if (c >=? n_file)%Z then
        ({| batch := []; cnt := 0%Z; file_nr := (file_nr st + 1)%Z;
            dumped := dumped st ++ [(file_nr st, b)] |}, Finished)
      else
        ({| batch := b; cnt := c; file_nr := file_nr st;
            dumped := dumped st |}, Finished)
  | _ =>
      ({| batch := b; cnt := cnt st; file_nr := file_nr st;
          dumped := dumped st |}, o)
  end.

(** [for subject, data in subjects.items(): ...] *)
Fixpoint main_loop (self : DocRetriever) (req_get : string -> Z -> response)
    (fuel : nat) (n_docs n_file : Z) (done : list string)
    (subjects : dict subject_data) (st : run_state) : run_state * outcome :=
  match subjects with
  | [] => (st, Finished)
  | (subject, sdata) :: rest =>
      if is_done done subject then
        main_loop self req_get fuel n_docs n_file done rest st
      else
        match do_subject self req_get fuel n_docs n_file st subject sdata with
        | (st, Finished) =>
            main_loop self req_get fuel n_docs n_file done rest st
        | (st, o) => (st, o)
        end
  end.

(** Lines 121-122: the leftover batch, written when the loop is through. *)
Definition leftover (st : run_state) : list (Z * batch_t) :=
  if 0 <? List.length (batch st) then [(file_nr st, batch st)] else [].

(** [main]: the files written, in the order written, and how the run ended. *)
Definition main (self : DocRetriever) (req_get : string -> Z -> response)
    (docs_dir : list (string * batch_t)) (subjects : dict subject_data)
    (fuel : nat) (n_docs n_file : Z) : list (Z * batch_t) * outcome :=
  let done := get_done_subjects docs_dir in
  match main_loop self req_get fuel n_docs n_file done subjects start with
  | (st, Finished) => (dumped st ++ leftover st, Finished)
  | (st, o) => (dumped st, o)
  end.

(** The number of records of a unit. *)
Definition n_records (b : batch_t) : Z :=
  Z.of_nat (list_sum (map (@List.length processed) (values b))).

(** The subjects of the units, in the order written. *)
Definition unit_keys (units : list (Z * batch_t)) : list string :=
  flat_map (fun u => keys (snd u)) units.

(** For each unit its number and, for each of its subjects, the number of
    documents it holds. *)
Definition unit_sizes (units : list (Z * batch_t))
    : list (Z * list (string * nat)) :=
  map (fun u => (fst u, map (fun e => (fst e, List.length (snd e))) (snd u)))
    units.

(** The subjects that are not done. *)
Definition pending (done : list string) (subjects : dict subject_data)
    : list string :=
  filter (fun s => negb (is_done done s)) (keys subjects).

(** Each subject of [b] is among [seen] and holds all that [get_docs]
    yielded for it before returning. *)
Definition whole_subjects (self : DocRetriever)
    (req_get : string -> Z -> response) (fuel : nat) (n_docs : Z)
    (seen : dict subject_data) (b : batch_t) : Prop :=
  forall s docs,
    In (s, docs) b ->
    exists sdata,
      In (s, sdata) seen
      /\ get_docs self req_get fuel (works_api_url sdata) n_docs
         = (docs, Finished).

(** What holds of the variables of [main] between two subjects, [seen]
    being the subjects the loop is through with. *)
Definition between_subjects (self : DocRetriever)
    (req_get : string -> Z -> response) (fuel : nat) (n_docs n_file : Z)
    (done : list string) (seen : dict subject_data) (st : run_state) : Prop :=
  cnt st = n_records (batch st)
  /\ unit_keys (dumped st) ++ keys (batch st) = pending done seen
  /\ Forall (fun u => (n_file <= n_records (snd u))%Z) (dumped st)
  /\ Forall (fun u => whole_subjects self req_get fuel n_docs seen (snd u))
       (dumped st)
  /\ whole_subjects self req_get fuel n_docs seen (batch st)
  /\ map fst (dumped st) = map Z.of_nat (seq 1 (List.length (dumped st)))
  /\ file_nr st = Z.of_nat (S (List.length (dumped st))).

(** The qualifying documents of a page, and of the pages [first .. first+k-1]
    of a URL; a page without ['results'] has none. *)
Definition qualifying (docs : list document) : list document :=
  filter (fun d => match abstract_inverted_index d with
                   | Some _ => true
                   | None => false
                   end) docs.

Definition page_docs (r : response) : list document :=
  match r with
  | NoResults => []
  | Results docs => qualifying docs
  end.

Fixpoint qualifying_pages (req_get : string -> Z -> response) (url : string)
    (first : Z) (k : nat) : list document :=
  match k with
  | O => []
  | S k =>
      page_docs (req_get url first)
        ++ qualifying_pages req_get url (first + 1)%Z k
  end.

(** A qualifying document as yielded, when processing it raises nothing. *)
Definition yield_of (self : DocRetriever) (doc : document) : option processed :=
  match abstract_inverted_index doc with
  | None => None
  | Some abstract =>
      match process_texts self (display_name doc) abstract with
      | Ok lemmas =>
          Some {| data := lemmas; subjects := concept_scores (concepts doc) |}
      | Raise _ => None
      end
  end.

(** Processing the document raises nothing. *)
Definition processes (self : DocRetriever) (doc : document) : Prop :=
  yield_of self doc <> None.

(** ** The directory of the persisted units *)

(** [f'{file_nr}.json'], the name under which line 117 and line 122 write. *)
Definition file_name (nr : Z) : string :=
  (NilZero.string_of_int (Z.to_int nr) ++ ".json")%string.

(** [json.dump(batch, open(..., 'w'))]: the file is created, or replaced
    when the directory has one of that name. *)
Definition write_unit (dir : dict batch_t) (u : Z * batch_t) : dict batch_t :=
  set (file_name (fst u)) (snd u) dir.

(** The directory after the files of a run have been written to it. *)
Definition docs_dir_after (docs_dir : dict batch_t) (units : list (Z * batch_t))
    : dict batch_t :=
  fold_left write_unit units docs_dir.

(** What [get_docs] yields for the subjects that are not done, in the order
    of the input. *)
Definition pending_yields (self : DocRetriever)
    (req_get : string -> Z -> response) (fuel : nat) (n_docs : Z)
    (done : list string) (subjects : dict subject_data) : batch_t :=
  map (fun e => (fst e,
                 fst (get_docs self req_get fuel (works_api_url (snd e)) n_docs)))
    (filter (fun e => negb (is_done done (fst e))) subjects).

(** ** A small retriever and collections to run the definitions on *)

Module Sample.

(** Tokens are the stretches between spaces. *)
Fixpoint split_spaces (cur : string) (s : string) : list string :=
  match s with
  | EmptyString => if String.eqb cur "" then [] else [cur]
  | String c r =>
      if Ascii.eqb c " "%char
      then (if String.eqb cur "" then [] else [cur]) ++ split_spaces "" r
      else split_spaces (cur ++ String c "") r
  end.

(** Every token a noun; nothing is changed by lemmatising or lower-casing. *)
Definition retriever (v : list string) : DocRetriever :=
  {| vocab := v;
     tagger := fun text => Ok (map (fun t => (t, "NOUN")) (split_spaces "" text));
     lemmatizer := fun w _ => w;
     str_lower := fun w => w |}.

Definition doc (title : option string) (abstract : option (dict (list Z)))
    : document :=
  {| display_name := title; abstract_inverted_index := abstract;
     concepts := [{| id := "C1"; score := 1 # 2 |}] |}.

(** Every page has ['results'], and none has a document. *)
Definition empty_pages : string -> Z -> response :=
  fun _ _ => Results [].

(** The first page holds [k] copies of a document, the second has no
    ['results']. *)
Definition short_collection (k : nat) : string -> Z -> response :=
  fun _ page =>
    if (page =? 1)%Z
    then Results (repeat (doc (Some "maps") (Some [("graph", [0%Z])])) k)
    else NoResults.

(** A collection whose size depends on the URL: six documents for the URL
    of subject [A], seven for any other. *)
Definition six_seven : string -> Z -> response :=
  fun url page =>
    if String.eqb url ("urlA" ++ page_query)%string
    then short_collection 6 url page
    else short_collection 7 url page.

(** A qualifying document without a title, followed by one with a title. *)
Definition untitled_then_titled : string -> Z -> response :=
  fun _ page =>
    if (page =? 1)%Z
    then Results [doc None (Some [("graph", [0%Z])]);
                  doc (Some "maps") (Some [("graph", [0%Z])])]
    else NoResults.

(** The collection of the URL of subject [Z] holds two documents; that of
    any other URL starts with a document without a title, on which
    processing raises. *)
Definition only_z : string -> Z -> response :=
  fun url page =>
    if String.eqb url ("urlZ" ++ page_query)%string
    then short_collection 2 url page
    else untitled_then_titled url page.

End Sample.

(** * get_articles.py: the first paragraphs of the Wikipedia articles

    A text is held as its UTF-8 bytes.  The patterns and the newline that
    [prettify] looks for are ASCII, and the bytes of a character that is not
    ASCII are all above 127, so that deleting on the bytes is deleting on
    the characters. *)

(** [text.replace('\n', '')] *)
Fixpoint remove_newlines (text : string) : string :=
  match text with
  | EmptyString => EmptyString
  | String c r =>
      if Ascii.eqb c "010"%char then remove_newlines r
      else String c (remove_newlines r)
  end.

(** The classes [[0-9]], [[a-z]] and [i] of the three patterns. *)
Definition is_digit (c : ascii) : bool :=
  (48 <=? nat_of_ascii c) && (nat_of_ascii c <=? 57).

Definition is_lower (c : ascii) : bool :=
  (97 <=? nat_of_ascii c) && (nat_of_ascii c <=? 122).

Definition is_i (c : ascii) : bool := Ascii.eqb c "i"%char.

(** The number of leading characters of [s] that are in the class. *)
Fixpoint run (cls : ascii -> bool) (s : string) : nat :=
  match s with
  | EmptyString => 0
  | String c r => if cls c then S (run cls r) else 0
  end.

(** [s[k:]] *)
Fixpoint drop (k : nat) (s : string) : string :=
  match k, s with
  | S k, String _ r => drop k r
  | _, _ => s
  end.

(** The length of the match of [\[X+\]] at the start of [s], for a class
    [X]: a bracket, as many characters of the class as there are and at
    least one, and a closing bracket.  Taking fewer characters of the class
    never helps, as the next one is then of the class and no bracket. *)
Definition match_many (cls : ascii -> bool) (s : string) : option nat :=
  match s with
  | String c r =>
      if Ascii.eqb c "["%char then
        match run cls r, drop (run cls r) r with
        | S k, String c' _ =>
            if Ascii.eqb c' "]"%char then Some (S k + 2) else None
        | _, _ => None
        end
      else None
  | EmptyString => None
  end.

(** The length of the match of [\[X\]] at the start of [s]. *)
Definition match_one (cls : ascii -> bool) (s : string) : option nat :=
  match s with
  | String c (String x (String c' _)) =>
      if Ascii.eqb c "["%char && cls x && Ascii.eqb c' "]"%char
      then Some 3 else None
  | _ => None
  end.

(** [re.sub(pattern, '', s)] for a pattern that matches no empty string:
    from left to right, a match at the current position is left out and the
    scan goes on behind it; otherwise the character is kept.  [skip] counts
    the characters of a match still to leave out. *)
Fixpoint sub_from (pattern : string -> option nat) (skip : nat) (s : string)
    : string :=
  match s with
  | EmptyString => EmptyString
  | String c r =>
      match skip with
      | S k => sub_from pattern k r
      | O =>
          match pattern s with
          | Some (S k) => sub_from pattern k r
          | _ => String c (sub_from pattern 0 r)
          end
      end
  end.

Definition re_sub (pattern : string -> option nat) (s : string) : string :=
  sub_from pattern 0 s.

(** [prettify]: lines 55-60. *)
Definition prettify (text : string) : string :=
  let text := remove_newlines text in
  let text := re_sub (match_many is_digit) text in
  let text := re_sub (match_one is_lower) text in
  re_sub (match_many is_i) text.

(** [len(s)]: the bytes that do not continue a character. *)
Definition is_continuation (c : ascii) : bool :=
  (128 <=? nat_of_ascii c) && (nat_of_ascii c <? 192).

Fixpoint py_len (s : string) : nat :=
  match s with
  | EmptyString => 0
  | String c r => if is_continuation c then py_len r else S (py_len r)
  end.

(** What line 36 and line 38 give for a link: an exception of [req.get] or
    [etree.HTML], raised before the entry of the subject is set; an
    exception of [tree.xpath], raised after it is set; or the paragraphs,
    each as [''.join(p.itertext())]. *)
Inductive wiki_page : Type :=
| FetchRaises
| XPathRaises
| Paragraphs (ps : list string).

(** Lines 38-46: the loop over the paragraphs, on the dictionary
    [self.articles]. *)
Fixpoint paragraph_loop (subject : string) (articles : dict string)
    (ps : list string) : dict string :=
  match ps with
  | [] => articles
  | p :: rest =>
      let text := prettify p in
      let articles :=
        set subject (get_default subject "" articles ++ text)%string articles in
      if py_len (get_default subject "" articles) <? 500
      then
        paragraph_loop subject
          (set subject (get_default subject "" articles ++ " ")%string articles)
          rest
      else articles
  end.

(** [WikiRetriever.get_paragraph]; the exceptions are caught and logged. *)
Definition get_paragraph (fetch : string -> wiki_page) (articles : dict string)
    (subject link : string) : dict string :=
  match fetch link with
  | FetchRaises => articles
  | XPathRaises => set subject ""%string articles
  | Paragraphs ps => paragraph_loop subject (set subject ""%string articles) ps
  end.

(** The attribute of a subject that [get_articles] reads. *)
Record wiki_subject : Type := { wikidata : string }.

(** [WikiRetriever.get_articles] on [self.articles].  [links_of url] is
    [re.findall(self.enwiki, req.get(url).text)], or the exception of
    [req.get], which nothing catches. *)
Fixpoint get_articles (links_of : string -> result (list string))
    (fetch : string -> wiki_page) (subjects : dict wiki_subject)
    (articles : dict string) : dict string * outcome :=
  match subjects with
  | [] => (articles, Finished)
  | (subject, data) :: rest =>
      match links_of (wikidata data) with
      | Raise e => (articles, Raised e)
      | Ok links =>
          if List.length links =? 0 then
            get_articles links_of fetch rest articles
          else if 2 <? List.length links then
            get_articles links_of fetch rest articles
          else
            match links with
            | link :: _ =>
                get_articles links_of fetch rest
                  (get_paragraph fetch articles subject link)
            | [] => get_articles links_of fetch rest articles
            end
      end
  end.

(** The text [get_paragraph] builds from the paragraphs of a page. *)
Fixpoint add_paragraphs (article : string) (ps : list string) : string :=
  match ps with
  | [] => article
  | p :: rest =>
      let article := (article ++ prettify p)%string in
      if py_len article <? 500 then add_paragraphs (article ++ " ")%string rest
      else article
  end.

(** Each paragraph prettified and followed by one space. *)
Definition joined (ps : list string) : string :=
  fold_right (fun p acc => (prettify p ++ " " ++ acc)%string) ""%string ps.

(** The article of one subject, if it gets one. *)
Definition article_of (links_of : string -> result (list string))
    (fetch : string -> wiki_page) (e : string * wiki_subject)
    : list (string * string) :=
  match links_of (wikidata (snd e)) with
  | Ok [link] | Ok [link; _] =>
      match fetch link with
      | FetchRaises => []
      | XPathRaises => [(fst e, ""%string)]
      | Paragraphs ps => [(fst e, add_paragraphs "" ps)]
      end
  | _ => []
  end.

(** A pattern that matches at an opening bracket only. *)
Definition at_bracket (pattern : string -> option nat) : Prop :=
  forall c r, Ascii.eqb c "[" = false -> pattern (String c r) = None.

(** [c] occurs in [s]. *)
Fixpoint occurs (c : ascii) (s : string) : bool :=
  match s with
  | EmptyString => false
  | String x r => Ascii.eqb x c || occurs c r
  end.

(** [s] has neither a newline nor an opening bracket. *)
Definition plain (s : string) : bool :=
  negb (occurs "010"%char s) && negb (occurs "["%char s).

(** All characters of [s] are in the class. *)
Fixpoint all_in (cls : ascii -> bool) (s : string) : bool :=
  match s with
  | EmptyString => true
  | String c r => cls c && all_in cls r
  end.

(** [t] is [s] with some characters left out. *)
Inductive subsequence : string -> string -> Prop :=
| sub_empty : subsequence EmptyString EmptyString
| sub_keep c t s : subsequence t s -> subsequence (String c t) (String c s)
| sub_leave c t s : subsequence t s -> subsequence t (String c s).

(** The references [prettify] is after: [[12]], [[a]], [[iii]]. *)
Inductive reference : string -> Prop :=
| ref_number ds :
    ds <> EmptyString -> all_in is_digit ds = true ->
    reference ("[" ++ ds ++ "]")%string
| ref_letter c :
    is_lower c = true -> reference (String "[" (String c "]"))
| ref_roman ds :
    ds <> EmptyString -> all_in is_i ds = true ->
    reference ("[" ++ ds ++ "]")%string.

(** * Properties *)

(** ** Strings *)

Section StringFacts.

Lemma append_assoc (s1 s2 s3 : string) :
  ((s1 ++ s2) ++ s3 = s1 ++ (s2 ++ s3))%string.
Proof.
  induction s1 as [|c s1 IH]; simpl; [reflexivity | now rewrite IH].
Qed.

Lemma append_empty_r (s : string) : (s ++ "" = s)%string.
Proof.
  induction s as [|c s IH]; simpl; [reflexivity | now rewrite IH].
Qed.

Lemma length_append (s1 s2 : string) :
  String.length (s1 ++ s2) = String.length s1 + String.length s2.
Proof.
  induction s1 as [|c s1 IH]; simpl; [reflexivity | now rewrite IH].
Qed.

Lemma substring_all (s : string) : substring 0 (String.length s) s = s.
Proof.
  induction s as [|c s IH]; simpl; [reflexivity | now rewrite IH].
Qed.

Lemma substring_short (s : string) (m : nat) :
  String.length s <= m -> substring 0 m s = s.
Proof.
  revert m; induction s as [|c s IH]; intros m Hm; simpl in *.
  - now destruct m.
  - destruct m as [|m]; [lia|]. rewrite IH by lia. reflexivity.
Qed.

Lemma substring_skip (p q : string) (m : nat) :
  substring (String.length p) m (p ++ q) = substring 0 m q.
Proof.
  induction p as [|c p IH]; simpl; [reflexivity | exact IH].
Qed.

(** A string is what comes before a position followed by what comes
    from it on. *)
Lemma substring_split (s : string) (n : nat) :
  n <= String.length s ->
  s = (substring 0 n s ++ substring n (String.length s - n) s)%string.
Proof.
  revert n; induction s as [|c s IH]; intros n Hn; simpl in *.
  - now destruct n.
  - destruct n as [|n]; simpl.
    + now rewrite substring_all.
    + f_equal. apply IH. lia.
Qed.

Lemma length_substring_le (s : string) (n m : nat) :
  String.length (substring n m s) <= String.length s.
Proof.
  revert n m; induction s as [|c s IH]; intros n m; simpl.
  - destruct n, m; simpl; lia.
  - destruct n as [|n].
    + destruct m as [|m]; simpl; [lia|]. specialize (IH 0 m). lia.
    + specialize (IH n m). lia.
Qed.

(** The slice [s[-2:]] is ['. '] exactly when [s] ends with it. *)
Lemma last2_ends_with (s : string) : last2 s = ". " <-> ends_with s ". ".
Proof.
  unfold last2, ends_with. split.
  - intros H.
    assert (Hlen : 2 <= String.length s).
    { pose proof (length_substring_le s (String.length s - 2) 2) as L.
      rewrite H in L. exact L. }
    exists (substring 0 (String.length s - 2) s).
    pose proof (substring_split s (String.length s - 2)) as E.
    replace (String.length s - (String.length s - 2)) with 2 in E by lia.
    rewrite H in E. apply E. lia.
  - intros [p ->].
    rewrite length_append. simpl String.length.
    replace (String.length p + 2 - 2) with (String.length p) by lia.
    rewrite substring_skip. reflexivity.
Qed.

Lemma terminate_ends_with (s : string) : ends_with (terminate s) ". ".
Proof.
  unfold terminate. destruct (String.eqb_spec (last2 s) ". ") as [E|E].
  - now apply last2_ends_with.
  - now exists s.
Qed.

Lemma append_cancel_r (t : string) :
  forall s1 s2 : string, (s1 ++ t = s2 ++ t)%string -> s1 = s2.
Proof.
  induction s1 as [|c s1 IH]; intros [|c' s2] H; simpl in H.
  - reflexivity.
  - apply (f_equal String.length) in H. simpl in H.
    rewrite length_append in H. lia.
  - apply (f_equal String.length) in H. simpl in H.
    rewrite length_append in H. lia.
  - injection H as -> H. f_equal. now apply IH.
Qed.

Lemma snoc_inj (a b : string) (c c' : ascii) :
  (a ++ String c "")%string = (b ++ String c' "")%string -> a = b /\ c = c'.
Proof.
  revert b. induction a as [|x a IH]; intros [|y b] H; simpl in H.
  - injection H as ->. now split.
  - injection H as -> H. destruct b; discriminate H.
  - injection H as -> H. destruct a; discriminate H.
  - injection H as -> H. destruct (IH b H) as [-> ->]. now split.
Qed.

End StringFacts.

(** ** Dictionaries *)

Section DictFacts.
Context {V : Type}.
Implicit Types (d : dict V) (k : string) (v : V).

Lemma get_Some_In d k v : get k d = Some v -> In (k, v) d.
Proof.
  induction d as [|[k' v'] d IH]; simpl; [discriminate|].
  destruct (String.eqb_spec k' k) as [->|N].
  - intros [= ->]. now left.
  - intros H. right. now apply IH.
Qed.

Lemma get_None_keys d k : get k d = None <-> ~ In k (keys d).
Proof.
  induction d as [|[k' v'] d IH]; simpl; [tauto|].
  destruct (String.eqb_spec k' k) as [->|N].
  - split; [discriminate | intros H; exfalso; apply H; now left].
  - rewrite IH. tauto.
Qed.

Lemma get_In d k v : wf d -> In (k, v) d -> get k d = Some v.
Proof.
  unfold wf. induction d as [|[k' v'] d IH]; simpl; [tauto|].
  intros Hnd [E|Hin]; inversion Hnd as [|? ? Hk Hd]; subst.
  - injection E as -> ->. now rewrite String.eqb_refl.
  - destruct (String.eqb_spec k' k) as [->|N]; [|now apply IH].
    exfalso. apply Hk. change k with (fst (k, v)). now apply in_map.
Qed.

(** Setting a key the dictionary does not have appends the entry. *)
Lemma set_new d k v : ~ In k (keys d) -> set k v d = d ++ [(k, v)].
Proof.
  induction d as [|[k' v'] d IH]; simpl; [reflexivity|].
  intros H. destruct (String.eqb_spec k' k) as [->|N]; [tauto|].
  rewrite IH by tauto. reflexivity.
Qed.

(** Setting a key the dictionary has leaves the keys as they are. *)
Lemma keys_set_old d k v : In k (keys d) -> keys (set k v d) = keys d.
Proof.
  induction d as [|[k' v'] d IH]; simpl; [tauto|].
  intros H. destruct (String.eqb_spec k' k) as [->|N]; simpl.
  - reflexivity.
  - f_equal. apply IH. destruct H; [contradiction | assumption].
Qed.

Lemma get_set_same d k v : get k (set k v d) = Some v.
Proof.
  induction d as [|[k' v'] d IH]; simpl.
  - now rewrite String.eqb_refl.
  - destruct (String.eqb_spec k' k) as [->|N]; simpl.
    + now rewrite String.eqb_refl.
    + destruct (String.eqb_spec k' k); [contradiction | exact IH].
Qed.

Lemma get_set_other d k k' v : k' <> k -> get k' (set k v d) = get k' d.
Proof.
  intros N. induction d as [|[k0 v0] d IH]; simpl.
  - destruct (String.eqb_spec k k'); [congruence | reflexivity].
  - destruct (String.eqb_spec k0 k) as [->|N0]; simpl.
    + destruct (String.eqb_spec k k'); [congruence | reflexivity].
    + now rewrite IH.
Qed.

(** Setting a key twice is setting it to the second value. *)
Lemma set_set d k v v' : set k v' (set k v d) = set k v' d.
Proof.
  induction d as [|[k0 v0] d IH]; simpl.
  - now rewrite String.eqb_refl.
  - destruct (String.eqb_spec k0 k) as [->|N0]; simpl.
    + now rewrite String.eqb_refl.
    + destruct (String.eqb_spec k0 k); [contradiction | now rewrite IH].
Qed.

End DictFacts.

(** ** Lists *)

Section ListFacts.
Context {A B : Type}.

Lemma NoDup_app_disjoint (l1 l2 : list A) :
  NoDup (l1 ++ l2) -> forall a, In a l1 -> ~ In a l2.
Proof.
  induction l1 as [|x l1 IH]; simpl; [tauto|].
  intros H a [->|Ha] Ha2; inversion H as [|? ? Hx Hr]; subst.
  - apply Hx, in_or_app. now right.
  - now apply (IH Hr a).
Qed.

Lemma flat_map_singletons (f : A -> list B) (g : A -> B) (l : list A) :
  (forall x, In x l -> f x = [g x]) -> flat_map f l = map g l.
Proof.
  induction l as [|x l IH]; intros H; simpl; [reflexivity|].
  rewrite (H x) by now left. simpl. f_equal.
  apply IH. intros y Hy. apply H. now right.
Qed.

End ListFacts.

(** ** Reconstruction of the abstract *)

Section Reconstruction.
Variable abstract_idx : dict (list Z).

Lemma spaced_app (u v : list string) :
  spaced (u ++ v) = (spaced u ++ spaced v)%string.
Proof.
  induction u as [|w u IH]; simpl; [reflexivity|].
  rewrite IH. now rewrite !append_assoc.
Qed.

Lemma build_abstract_at_spaced (text : string) (i : nat) :
  build_abstract_at abstract_idx text i
  = (text ++ spaced (words_at abstract_idx i))%string.
Proof.
  unfold build_abstract_at, words_at.
  generalize (keys abstract_idx) as ks. intros ks; revert text.
  induction ks as [|w ks IH]; intros text; simpl.
  - now rewrite append_empty_r.
  - destruct (pos_in i (positions w abstract_idx)); simpl.
    + rewrite IH. now rewrite !append_assoc.
    + apply IH.
Qed.

(** The text is the appended words, each followed by one space. *)
Lemma build_abstract_spaced :
  build_abstract abstract_idx = spaced (abstract_words abstract_idx).
Proof.
  unfold build_abstract, abstract_words.
  generalize (seq 0 (n_words abstract_idx)) as l.
  assert (G : forall l text,
    fold_left (build_abstract_at abstract_idx) l text
    = (text ++ spaced (flat_map (words_at abstract_idx) l))%string).
  { induction l as [|i l IH]; intros text; simpl.
    - now rewrite append_empty_r.
    - rewrite IH, build_abstract_at_spaced, spaced_app.
      now rewrite append_assoc. }
  intros l. now rewrite G.
Qed.

Lemma pos_in_In (i : nat) (v : list Z) :
  pos_in i v = true <-> In (Z.of_nat i) v.
Proof.
  unfold pos_in. rewrite existsb_exists. split.
  - intros [x [Hin E]]. apply Z.eqb_eq in E. now subst.
  - intros H. exists (Z.of_nat i). split; [exact H | apply Z.eqb_refl].
Qed.

Lemma covers_n_words (N : nat) : covers abstract_idx N -> n_words abstract_idx = N.
Proof.
  unfold covers, n_words. intros H.
  rewrite <- length_concat, (Permutation_length H).
  now rewrite length_map, length_seq.
Qed.

Hypothesis Hwf : wf abstract_idx.

(** In a well-formed index, looking a word up gives its own entry. *)
Lemma words_at_entries (i : nat) :
  words_at abstract_idx i
  = map fst (filter (fun e => pos_in i (snd e)) abstract_idx).
Proof.
  unfold words_at, keys.
  assert (G : forall l, incl l abstract_idx ->
    filter (fun w => pos_in i (positions w abstract_idx)) (map fst l)
    = map fst (filter (fun e => pos_in i (snd e)) l)).
  { induction l as [|[w ps] l IH]; intros Hl; simpl; [reflexivity|].
    assert (E : positions w abstract_idx = ps).
    { unfold positions, get_default.
      rewrite (get_In abstract_idx w ps Hwf); [reflexivity|].
      apply Hl. now left. }
    rewrite E, IH by (intros e He; apply Hl; now right).
    now destruct (pos_in i ps). }
  apply G, incl_refl.
Qed.

(** A position that occurs once in all the lists selects one entry. *)
Lemma one_entry (i : nat) (l : dict (list Z)) :
  NoDup (List.concat (values l)) ->
  In (Z.of_nat i) (List.concat (values l)) ->
  exists w ps, filter (fun e => pos_in i (snd e)) l = [(w, ps)].
Proof.
  induction l as [|[w ps] l IH]; simpl; [tauto|].
  intros Hnd Hin.
  pose proof (NoDup_app_disjoint _ _ Hnd) as Hdisj.
  apply NoDup_app_remove_l in Hnd as Hl.
  destruct (pos_in i ps) eqn:E.
  - exists w, ps. f_equal.
    apply pos_in_In in E.
    assert (F : forall e, In e l -> pos_in i (snd e) = false).
    { intros [w' ps'] He. simpl.
      destruct (pos_in i ps') eqn:E'; [|reflexivity].
      apply pos_in_In in E'. exfalso. apply (Hdisj _ E).
      apply in_concat. exists ps'. split; [|exact E'].
      change ps' with (snd (w', ps')). now apply in_map. }
    clear -F. induction l as [|e l IH]; simpl; [reflexivity|].
    rewrite F by now left. apply IH. intros e' He'. apply F. now right.
  - apply IH; [exact Hl|].
    apply in_app_or in Hin as [Hin|Hin]; [|exact Hin].
    apply pos_in_In in Hin. congruence.
Qed.

End Reconstruction.

Section ReconstructionCovered.
Variable abstract_idx : dict (list Z).
Variable N : nat.
Hypothesis Hwf : wf abstract_idx.
Hypothesis Hcov : covers abstract_idx N.

Lemma covered_once (i : nat) :
  i < N ->
  exists w ps, filter (fun e => pos_in i (snd e)) abstract_idx = [(w, ps)].
Proof.
  intros Hi. apply one_entry.
  - apply (Permutation_NoDup (Permutation_sym Hcov)).
    apply NoDup_map_NoDup_ForallPairs; [|apply seq_NoDup].
    intros x y _ _. apply Nat2Z.inj.
  - apply (Permutation_in _ (Permutation_sym Hcov)).
    apply in_map, in_seq. lia.
Qed.

(** The word appended for position [i]. *)
Lemma abstract_words_covered :
  abstract_words abstract_idx
  = map (fun i => hd ""%string (words_at abstract_idx i)) (seq 0 N).
Proof.
  unfold abstract_words. rewrite (covers_n_words _ _ Hcov).
  apply flat_map_singletons. intros i Hi. apply in_seq in Hi.
  destruct (covered_once i) as (w & ps & E); [lia|].
  rewrite (words_at_entries _ Hwf), E. reflexivity.
Qed.

Lemma nth_abstract_words (i : nat) (w : string) (ps : list Z) :
  i < N -> In (w, ps) abstract_idx ->
  nth_error (abstract_words abstract_idx) i = Some w <-> In (Z.of_nat i) ps.
Proof.
  intros Hi Hin.
  rewrite abstract_words_covered, nth_error_map, nth_error_seq.
  apply Nat.ltb_lt in Hi as Hlt. rewrite Hlt. simpl.
  destruct (covered_once i Hi) as (w' & ps' & E).
  rewrite (words_at_entries _ Hwf), E. simpl.
  assert (Hin' : In (w', ps') abstract_idx /\ pos_in i ps' = true).
  { apply (filter_In (fun e => pos_in i (snd e)) (w', ps')).
    rewrite E. now left. }
  destruct Hin' as [Hin' Hpos]. apply pos_in_In in Hpos.
  split.
  - intros [= ->].
    pose proof (get_In _ _ _ Hwf Hin) as G1.
    pose proof (get_In _ _ _ Hwf Hin') as G2.
    congruence.
  - intros Hp.
    assert (F : In (w, ps) (filter (fun e => pos_in i (snd e)) abstract_idx)).
    { apply filter_In. split; [exact Hin | now apply pos_in_In]. }
    rewrite E in F. destruct F as [F|[]]. congruence.
Qed.

End ReconstructionCovered.

(** C1. For an inverted index without a repeated word whose position lists
    hold each of [0 .. N-1] once and nothing else, [build_abstract] returns
    the appended words each followed by one space; there are [N] of them,
    and the word of an entry stands at position [i] exactly when [i] is in
    that entry's position list. *)
Theorem build_abstract_inverts_index (abstract_idx : dict (list Z)) (N : nat) :
  wf abstract_idx ->
  covers abstract_idx N ->
  build_abstract abstract_idx = spaced (abstract_words abstract_idx)
  /\ List.length (abstract_words abstract_idx) = N
  /\ forall i w ps,
       i < N -> In (w, ps) abstract_idx ->
       (nth_error (abstract_words abstract_idx) i = Some w
        <-> In (Z.of_nat i) ps).
Proof.
  intros Hwf Hcov. split; [apply build_abstract_spaced | split].
  - rewrite (abstract_words_covered _ _ Hwf Hcov).
    now rewrite length_map, length_seq.
  - intros i w ps. now apply nth_abstract_words.
Qed.

Lemma build_abstract_inverts_index_witness :
  let idx := [("b", [1%Z; 3%Z]); ("a", [0%Z]); ("c.", [2%Z])] in
  build_abstract idx = "a b c. b "
  /\ abstract_words idx = ["a"; "b"; "c."; "b"]
  /\ (nth_error (abstract_words idx) 3 = Some "b" <-> In 3%Z [1%Z; 3%Z]).
Proof.
  pose (idx := [("b", [1%Z; 3%Z]); ("a", [0%Z]); ("c.", [2%Z])]).
  assert (Hwf : wf idx).
  { unfold wf, idx. simpl. repeat constructor; simpl; intuition discriminate. }
  assert (Hcov : covers idx 4).
  { unfold covers, idx. simpl.
    apply perm_trans with (l' := [1%Z; 0%Z; 3%Z; 2%Z]).
    - apply perm_skip, perm_swap.
    - apply perm_trans with (l' := [0%Z; 1%Z; 3%Z; 2%Z]).
      + apply perm_swap.
      + do 2 apply perm_skip. apply perm_swap. }
  destruct (build_abstract_inverts_index idx 4 Hwf Hcov) as (_ & _ & H).
  split; [reflexivity | split; [reflexivity|]].
  apply (H 3 "b"%string [1%Z; 3%Z]); [lia | now left].
Defined.

(** C8 (amended). The separator the code knows is the full stop: the text
    handed to the tagger is the abstract, then ['. '] exactly when the
    abstract does not end with ['. '] already, then the title; the part
    before the title ends with ['. '] in either case.  An abstract that
    ends with another character and a space, a question mark say, gets
    ['. '] appended as well. *)
Theorem separator_before_title (title : string) (abstract_idx : dict (list Z)) :
  let abstract := build_abstract abstract_idx in
  (ends_with abstract ". " ->
   sentence_text (Some title) abstract_idx = Ok (abstract ++ title)%string)
  /\ (~ ends_with abstract ". " ->
      sentence_text (Some title) abstract_idx
      = Ok (abstract ++ ". " ++ title)%string)
  /\ (exists before,
        sentence_text (Some title) abstract_idx = Ok (before ++ title)%string
        /\ ends_with before ". ")
  /\ forall c,
       c <> "."%char ->
       ends_with abstract (String c " ") ->
       sentence_text (Some title) abstract_idx
       = Ok (abstract ++ ". " ++ title)%string.
Proof.
  intros abstract. unfold sentence_text. fold abstract.
  assert (Hnot : ~ ends_with abstract ". " ->
                 Ok (terminate abstract ++ title)%string
                 = Ok (abstract ++ ". " ++ title)%string).
  { intros H. unfold terminate.
    destruct (String.eqb_spec (last2 abstract) ". ") as [E|E].
    - exfalso. now apply H, last2_ends_with.
    - now rewrite append_assoc. }
  split; [|split; [exact Hnot | split]].
  - intros H. apply last2_ends_with in H.
    unfold terminate. now rewrite H.
  - exists (terminate abstract). split; [reflexivity|].
    apply terminate_ends_with.
  - intros c Hc [p Hp]. apply Hnot. intros [q Hq].
    rewrite Hp in Hq.
    change (p ++ String c " ")%string
      with (p ++ String c "" ++ " ")%string in Hq.
    change (q ++ ". ")%string with (q ++ String "." "" ++ " ")%string in Hq.
    rewrite <- !append_assoc in Hq.
    apply append_cancel_r in Hq. apply snoc_inj in Hq as [_ Hq].
    contradiction.
Qed.

(** C8 as stated fails for a sentence terminator other than the full stop:
    an abstract that ends with a question mark and a space is not left as
    it is, ['. '] is put behind it. *)
Lemma separator_after_question_mark :
  build_abstract [("so?", [2%Z]); ("Is", [0%Z]); ("it", [1%Z])]
  = "Is it so? "%string
  /\ terminate "Is it so? " = "Is it so? . "%string
  /\ sentence_text (Some "Title")
       [("so?", [2%Z]); ("Is", [0%Z]); ("it", [1%Z])]
     = Ok "Is it so? . Title"%string.
Proof.
  repeat split.
Qed.

(** C9. For the empty index [build_abstract] returns the empty string, the
    text handed to the tagger is ['. '] followed by the title, and
    [process_texts] raises nothing of its own: it returns the ranking of
    what the tagger gives for that text, or the tagger's exception.  A
    document with the empty index qualifies, and is yielded unless the
    tagger raises. *)
Theorem empty_index_is_processed (self : DocRetriever) (title : string) :
  build_abstract [] = ""%string
  /\ sentence_text (Some title) [] = Ok (". " ++ title)%string
  /\ process_texts self (Some title) []
     = match tagger self (". " ++ title)%string with
       | Ok sentence => Ok (rank (vocab self) (map (lemma_of self) sentence))
       | Raise e => Raise e
       end
  /\ forall cs,
       scan_page self 1 0
         [{| display_name := Some title; abstract_inverted_index := Some [];
             concepts := cs |}]
       = match tagger self (". " ++ title)%string with
         | Ok sentence =>
             ([{| data := rank (vocab self) (map (lemma_of self) sentence);
                  subjects := concept_scores cs |}], Stop Finished)
         | Raise e => ([], Stop (Raised e))
         end.
Proof.
  split; [reflexivity | split; [reflexivity | split; [reflexivity|]]].
  intros cs. cbn [scan_page abstract_inverted_index display_name concepts].
  unfold process_texts.
  change (sentence_text (Some title) []) with (Ok (". " ++ title)%string).
  cbv beta iota.
  now destruct (tagger self (". " ++ title)%string).
Qed.

(** ** Counting *)

Section SortedFacts.
Context {A B : Type}.

Lemma StronglySorted_snoc (R : A -> A -> Prop) (l : list A) (x : A) :
  StronglySorted R l -> Forall (fun a => R a x) l ->
  StronglySorted R (l ++ [x]).
Proof.
  induction 1 as [|a l Hs IH Ha]; intros Hx; simpl.
  - repeat constructor.
  - inversion Hx as [|? ? Hax Hlx]; subst. constructor.
    + now apply IH.
    + apply Forall_app. split; [exact Ha | now constructor].
Qed.

(** Only the relation between members matters. *)
Lemma StronglySorted_members (R R' : A -> A -> Prop) (l : list A) :
  (forall a b, In a l -> In b l -> R a b -> R' a b) ->
  StronglySorted R l -> StronglySorted R' l.
Proof.
  intros H Hs. induction Hs as [|a l Hs IH Ha]; [constructor|].
  constructor.
  - apply IH. intros x y Hx Hy. apply H; now right.
  - rewrite Forall_forall in *. intros b Hb.
    apply H; [now left | now right | now apply Ha].
Qed.

Lemma StronglySorted_map (f : A -> B) (R : B -> B -> Prop) (l : list A) :
  StronglySorted (fun a b => R (f a) (f b)) l -> StronglySorted R (map f l).
Proof.
  induction 1 as [|a l Hs IH Ha]; simpl; constructor; [exact IH|].
  rewrite Forall_forall in *. intros b Hb.
  apply in_map_iff in Hb as (x & <- & Hx). now apply Ha.
Qed.

Lemma StronglySorted_filter (R : A -> A -> Prop) (p : A -> bool) (l : list A) :
  StronglySorted R l -> StronglySorted R (filter p l).
Proof.
  induction 1 as [|a l Hs IH Ha]; simpl; [constructor|].
  destruct (p a); [|exact IH]. constructor; [exact IH|].
  rewrite Forall_forall in *. intros b Hb.
  apply filter_In in Hb as [Hb _]. now apply Ha.
Qed.

End SortedFacts.

Section CounterFacts.

Lemma index_of_app (w : string) (l r : list string) :
  In w l -> index_of w (l ++ r) = index_of w l.
Proof.
  induction l as [|x l IH]; simpl; [tauto|].
  intros H. destruct (String.eqb_spec x w) as [->|N]; [reflexivity|].
  f_equal. apply IH. destruct H; [contradiction | assumption].
Qed.

Lemma index_of_lt (w : string) (l : list string) :
  In w l -> index_of w l < List.length l.
Proof.
  induction l as [|x l IH]; simpl; [tauto|].
  intros H. destruct (String.eqb_spec x w) as [->|N]; [lia|].
  destruct H; [contradiction|]. apply IH in H. lia.
Qed.

Lemma index_of_new (w : string) (l : list string) :
  ~ In w l -> index_of w (l ++ [w]) = List.length l.
Proof.
  induction l as [|x l IH]; simpl; intros H.
  - now rewrite String.eqb_refl.
  - destruct (String.eqb_spec x w) as [->|N]; [tauto|].
    f_equal. apply IH. tauto.
Qed.

Lemma Counter_snoc (l : list string) (x : string) :
  Counter (l ++ [x])
  = set x (get_default x 0 (Counter l) + 1) (Counter l).
Proof.
  unfold Counter. now rewrite fold_left_app.
Qed.

(** What the counter holds: the distinct elements in the order of their
    first occurrence, each with the number of its occurrences. *)
Lemma Counter_spec (l : list string) :
  wf (Counter l)
  /\ (forall w, In w (keys (Counter l)) <-> In w l)
  /\ (forall w, get_default w 0 (Counter l) = occurrences l w)
  /\ StronglySorted (fun u v => index_of u l < index_of v l)
       (keys (Counter l)).
Proof.
  induction l as [|x l (Hwf & Hkeys & Hcnt & Hord)] using rev_ind.
  - repeat split; simpl; try tauto; constructor.
  - rewrite Counter_snoc. set (c := Counter l) in *.
    set (v := get_default x 0 c + 1).
    assert (Hk : keys (set x v c)
                 = if in_dec string_dec x l then keys c else keys c ++ [x]).
    { destruct (in_dec string_dec x l) as [Hx|Hx].
      - apply keys_set_old. now apply Hkeys.
      - rewrite set_new by (now rewrite Hkeys). unfold keys.
        now rewrite map_app. }
    split; [|split; [|split]].
    + unfold wf. rewrite Hk.
      destruct (in_dec string_dec x l) as [Hx|Hx]; [exact Hwf|].
      apply NoDup_app; [exact Hwf | repeat constructor; simpl; tauto |].
      intros a Ha [<-|[]]. now apply Hx, Hkeys.
    + intros w. rewrite Hk, in_app_iff. simpl.
      destruct (in_dec string_dec x l) as [Hx|Hx].
      * rewrite Hkeys. split; [tauto|]. intros [H|[<-|[]]]; assumption.
      * rewrite in_app_iff, Hkeys. simpl. tauto.
    + intros w.
      unfold get_default, occurrences. rewrite count_occ_app. simpl.
      destruct (string_dec x w) as [->|N].
      * rewrite get_set_same. unfold v. rewrite Hcnt.
        unfold occurrences. lia.
      * rewrite get_set_other by congruence.
        fold (get_default w 0 c). rewrite Hcnt. unfold occurrences. lia.
    + rewrite Hk.
      assert (Hold : StronglySorted
                (fun u v => index_of u (l ++ [x]) < index_of v (l ++ [x]))
                (keys c)).
      { revert Hord. apply StronglySorted_members.
        intros a b Ha Hb. apply Hkeys in Ha, Hb.
        now rewrite !index_of_app. }
      destruct (in_dec string_dec x l) as [Hx|Hx]; [exact Hold|].
      apply StronglySorted_snoc; [exact Hold|].
      apply Forall_forall. intros a Ha. apply Hkeys in Ha.
      rewrite index_of_app, index_of_new by assumption.
      now apply index_of_lt.
Qed.

End CounterFacts.

(** ** Filtering and ranking *)

Section RankFacts.
Variable vocab : list string.

Lemma in_vocab_In (w : string) : in_vocab vocab w = true <-> In w vocab.
Proof.
  unfold in_vocab. rewrite existsb_exists. split.
  - intros [x [Hin E]]. apply String.eqb_eq in E. now subst.
  - intros H. exists w. split; [exact H | apply String.eqb_refl].
Qed.

(** Copying the in-vocabulary entries one by one is filtering. *)
Lemma vocab_counts_filter (c : dict nat) :
  wf c ->
  vocab_counts vocab c = filter (fun e => in_vocab vocab (fst e)) c.
Proof.
  intros Hwf. unfold vocab_counts, keys.
  assert (G : forall l acc,
    NoDup (keys acc ++ map fst l) ->
    (forall e, In e l -> get_default (fst e) 0 c = snd e) ->
    fold_left
      (fun vocab_lemmas word =>
         if in_vocab vocab word
         then set word (get_default word 0 c) vocab_lemmas
         else vocab_lemmas) (map fst l) acc
    = acc ++ filter (fun e => in_vocab vocab (fst e)) l).
  { induction l as [|[w n] l IH]; intros acc Hnd Hget; simpl.
    - now rewrite app_nil_r.
    - assert (Hl : forall e, In e l -> get_default (fst e) 0 c = snd e)
        by (intros e He; apply Hget; now right).
      destruct (in_vocab vocab w).
      + pose proof (Hget (w, n) (or_introl eq_refl)) as E. simpl in E.
        rewrite E, set_new.
        * rewrite IH; [now rewrite <- app_assoc | | exact Hl].
          unfold keys. rewrite map_app, <- app_assoc. exact Hnd.
        * intros Hin. apply (NoDup_app_disjoint _ _ Hnd w Hin). now left.
      + apply IH; [|exact Hl]. now apply NoDup_remove_1 in Hnd. }
  apply (G c []); [exact Hwf|].
  intros [w n] He. simpl. unfold get_default.
  now rewrite (get_In c w n Hwf He).
Qed.

Lemma insert_desc_perm (x : string * nat) (l : list (string * nat)) :
  Permutation (insert_desc x l) (x :: l).
Proof.
  induction l as [|y l IH]; simpl; [reflexivity|].
  destruct (snd x <? snd y); [|reflexivity].
  rewrite IH. apply perm_swap.
Qed.

Lemma most_common_perm (c : dict nat) : Permutation (most_common c) c.
Proof.
  induction c as [|x c IH]; simpl; [reflexivity|].
  rewrite insert_desc_perm. now apply perm_skip.
Qed.

Lemma insert_desc_sorted before (x : string * nat) (l : list (string * nat)) :
  StronglySorted (sorted_before before) l ->
  Forall (before x) l ->
  StronglySorted (sorted_before before) (insert_desc x l).
Proof.
  induction 1 as [|y l Hs IH Hy]; intros Hx; simpl.
  - repeat constructor.
  - inversion Hx as [|? ? Hxy Hxl]; subst.
    destruct (Nat.ltb_spec (snd x) (snd y)) as [Hlt|Hge].
    + constructor; [now apply IH|].
      apply (Permutation_Forall (Permutation_sym (insert_desc_perm x l))).
      constructor; [now left | exact Hy].
    + constructor; [now constructor|].
      assert (Hxy' : sorted_before before x y).
      { unfold sorted_before.
        destruct (Nat.eq_dec (snd x) (snd y)); [right | left]; [tauto | lia]. }
      constructor; [exact Hxy'|].
      rewrite Forall_forall in *. intros z Hz.
      specialize (Hy z Hz). specialize (Hxl z Hz).
      unfold sorted_before in *.
      destruct (Nat.eq_dec (snd x) (snd z)); [right | left]; [tauto | lia].
Qed.

Lemma most_common_sorted before (c : dict nat) :
  StronglySorted before c ->
  StronglySorted (sorted_before before) (most_common c).
Proof.
  induction 1 as [|x c Hs IH Hx]; simpl; [constructor|].
  apply insert_desc_sorted; [exact IH|].
  exact (Permutation_Forall (Permutation_sym (most_common_perm c)) Hx).
Qed.

Variable lemmas : list string.

(** The items that are ranked. *)
Lemma ranked_items :
  let items := vocab_counts vocab (Counter lemmas) in
  NoDup (keys items)
  /\ (forall w n, In (w, n) items <->
        In w lemmas /\ in_vocab vocab w = true /\ n = occurrences lemmas w)
  /\ StronglySorted
       (fun x y => index_of (fst x) lemmas < index_of (fst y) lemmas) items.
Proof.
  destruct (Counter_spec lemmas) as (Hwf & Hkeys & Hcnt & Hord).
  simpl. rewrite (vocab_counts_filter _ Hwf).
  split; [|split].
  - unfold wf, keys in *. revert Hwf.
    generalize (Counter lemmas) as c.
    induction c as [|e c IH]; simpl; intros Hnd; [constructor|].
    inversion Hnd as [|? ? Hn Hc]; subst.
    destruct (in_vocab vocab (fst e)); simpl; [|now apply IH].
    constructor; [|now apply IH].
    intros Hin. apply Hn. apply in_map_iff in Hin as (e' & E & He').
    apply filter_In in He' as [He' _]. rewrite <- E. now apply in_map.
  - intros w n. rewrite filter_In. simpl. split.
    + intros [Hin Hv]. split; [|split; [exact Hv|]].
      * apply Hkeys. change w with (fst (w, n)). now apply in_map.
      * rewrite <- Hcnt. unfold get_default.
        now rewrite (get_In _ _ _ Hwf Hin).
    + intros (Hl & Hv & ->). split; [|exact Hv].
      apply Hkeys in Hl. apply get_Some_In.
      specialize (Hcnt w). unfold get_default in Hcnt.
      destruct (get w (Counter lemmas)) eqn:G; [now subst|].
      apply get_None_keys in G. contradiction.
  - apply StronglySorted_filter.
    unfold keys in Hord. clear -Hord.
    remember (map fst (Counter lemmas)) as ks eqn:E.
    revert E. generalize (Counter lemmas) as c. intros c; revert c.
    induction Hord as [|k ks Hs IH Hk]; intros [|e c] E; simpl in E;
      try discriminate; [constructor|].
    injection E as -> ->. constructor; [now apply IH|].
    rewrite Forall_forall in *. intros y Hy. apply Hk. now apply in_map.
Qed.

End RankFacts.

Section Ranking.
Variables vocab lemmas : list string.

Lemma rank_members (w : string) :
  In w (rank vocab lemmas) <-> In w lemmas /\ in_vocab vocab w = true.
Proof.
  destruct (ranked_items vocab lemmas) as (_ & Hin & _). simpl in Hin.
  unfold rank. rewrite in_map_iff. split.
  - intros ([w' n] & E & H). simpl in E. subst w'.
    apply (Permutation_in _ (most_common_perm _)) in H.
    apply Hin in H. tauto.
  - intros [Hl Hv]. exists (w, occurrences lemmas w). split; [reflexivity|].
    apply (Permutation_in _ (Permutation_sym (most_common_perm _))).
    apply Hin. tauto.
Qed.

Lemma rank_NoDup : NoDup (rank vocab lemmas).
Proof.
  destruct (ranked_items vocab lemmas) as (Hnd & _ & _). simpl in Hnd.
  unfold rank.
  apply (Permutation_NoDup
           (Permutation_sym (Permutation_map fst (most_common_perm _)))).
  exact Hnd.
Qed.

Lemma rank_sorted : StronglySorted (ranked_before lemmas) (rank vocab lemmas).
Proof.
  destruct (ranked_items vocab lemmas) as (_ & Hin & Hord).
  simpl in Hin, Hord. unfold rank.
  apply StronglySorted_map.
  apply most_common_sorted in Hord. revert Hord.
  apply StronglySorted_members.
  intros [u m] [v n] Hu Hv.
  apply (Permutation_in _ (most_common_perm _)) in Hu, Hv.
  apply Hin in Hu as (_ & _ & ->). apply Hin in Hv as (_ & _ & ->).
  unfold sorted_before, ranked_before. simpl. tauto.
Qed.

End Ranking.

(** C2. [process_texts] ranks the lemmas it has found with [rank]: the
    result holds each in-vocabulary lemma of the input once and no other
    word, and of two words in it the earlier one occurs more often in the
    input, or as often and for the first time earlier.  The lemmas
    [a, b, a, c, b] with all three in the vocabulary give [a, b, c]. *)
Theorem rank_by_count_then_first_occurrence (voc lemmas : list string) :
  NoDup (rank voc lemmas)
  /\ (forall w,
        In w (rank voc lemmas) <-> In w lemmas /\ in_vocab voc w = true)
  /\ StronglySorted (ranked_before lemmas) (rank voc lemmas)
  /\ rank ["a"; "b"; "c"] ["a"; "b"; "a"; "c"; "b"] = ["a"; "b"; "c"]
  /\ forall self title abstract_idx sentence,
       sentence_text title abstract_idx = Ok sentence ->
       process_texts self title abstract_idx
       = match tagger self sentence with
         | Ok tokens => Ok (rank (vocab self) (map (lemma_of self) tokens))
         | Raise e => Raise e
         end.
Proof.
  split; [apply rank_NoDup | split; [apply rank_members | split]].
  - apply rank_sorted.
  - split; [reflexivity|].
    intros self title abstract_idx sentence H.
    unfold process_texts. now rewrite H.
Qed.

(** C7. A lemma that is not in the vocabulary is nowhere in the ranking,
    however often it occurs; when no lemma of the input is in the
    vocabulary the ranking is empty.  With the vocabulary [a, c] the lemmas
    [a, b, b, c] give [a, c]. *)
Theorem rank_drops_out_of_vocabulary (vocab lemmas : list string) :
  (forall w, in_vocab vocab w = false -> ~ In w (rank vocab lemmas))
  /\ ((forall w, In w lemmas -> in_vocab vocab w = false) ->
      rank vocab lemmas = [])
  /\ rank ["a"; "c"] ["a"; "b"; "b"; "c"] = ["a"; "c"]
  /\ rank ["a"; "c"] ["b"; "b"] = [].
Proof.
  split; [|split; [|split; reflexivity]].
  - intros w Hv Hin. apply rank_members in Hin. destruct Hin as [_ Hin].
    congruence.
  - intros H. destruct (rank vocab lemmas) as [|w r] eqn:E; [reflexivity|].
    assert (Hin : In w (rank vocab lemmas)) by (rewrite E; now left).
    apply rank_members in Hin. destruct Hin as [Hl Hv].
    rewrite (H w Hl) in Hv. discriminate.
Qed.

(** ** The fetcher *)

Section Fetcher.
Variable self : DocRetriever.
Variable req_get : string -> Z -> response.
Variable url : string.
Variable n : Z.

Lemma qualifying_cons (doc : document) (rest : list document) :
  qualifying (doc :: rest)
  = match abstract_inverted_index doc with
    | Some _ => doc :: qualifying rest
    | None => qualifying rest
    end.
Proof.
  unfold qualifying. simpl. now destruct (abstract_inverted_index doc).
Qed.

(** A page on which the wanted number is not exceeded: the documents
    yielded are the first [m] qualifying ones, where [m] are still wanted;
    the generator returns when these are reached and goes on to the
    next page otherwise. *)
Lemma scan_page_yields (docs : list document) :
  forall (yielded : Z) (m : nat),
    1 <= m -> (n - yielded)%Z = Z.of_nat m ->
    Forall (processes self) (firstn m (qualifying docs)) ->
    exists ys,
      map Some ys = map (yield_of self) (firstn m (qualifying docs))
      /\ scan_page self n yielded docs
         = (ys, if List.length (qualifying docs) <? m
                then NextPage (yielded + Z.of_nat (List.length (qualifying docs)))
                else Stop Finished).
Proof.
  induction docs as [|doc rest IH]; intros yielded m Hm Hn Hok.
  - exists []. destruct m; [lia|]. simpl. split; [reflexivity|].
    now rewrite Z.add_0_r.
  - rewrite qualifying_cons in *. simpl scan_page.
    destruct (abstract_inverted_index doc) as [a|] eqn:Ha; [|now apply IH].
    destruct m as [|m]; [lia|]. simpl in Hok |- *.
    inversion Hok as [|? ? Hdoc Hrest]; subst.
    unfold processes, yield_of in Hdoc. unfold yield_of at 1.
    rewrite Ha in Hdoc |- *.
    destruct (process_texts self (display_name doc) a) as [lemmas|e];
      [clear Hdoc | now contradiction Hdoc].
    destruct (Z.eqb_spec (yielded + 1) n) as [E|E].
    + assert (m = 0) by lia. subst m. eexists [_]. simpl. split; reflexivity.
    + destruct (IH (yielded + 1)%Z m) as (ys & Hys & Hscan);
        [lia | lia | exact Hrest |].
      rewrite Hscan. eexists (_ :: ys). simpl map. rewrite Hys.
      split; [reflexivity|].
      replace (S (List.length (qualifying rest)) <? S m)
        with (List.length (qualifying rest) <? m) by reflexivity.
      destruct (List.length (qualifying rest) <? m); [|reflexivity].
      do 2 f_equal. lia.
Qed.

(** A page on which processing a document raises before the wanted number
    is reached: the generator ends there with that exception. *)
Lemma scan_page_raises (pre : list document) (doc : document)
    (post : list document) (a : dict (list Z)) (e : exn) :
  abstract_inverted_index doc = Some a ->
  process_texts self (display_name doc) a = Raise e ->
  forall (yielded : Z) (m : nat),
    (n - yielded)%Z = Z.of_nat m ->
    List.length (qualifying pre) < m ->
    Forall (processes self) (qualifying pre) ->
    exists ys,
      map Some ys = map (yield_of self) (qualifying pre)
      /\ scan_page self n yielded (pre ++ doc :: post)
         = (ys, Stop (Raised e)).
Proof.
  intros Ha He. induction pre as [|d pre IH]; intros yielded m Hn Hlen Hok.
  - exists []. simpl. now rewrite Ha, He.
  - rewrite qualifying_cons in *. simpl app. simpl scan_page.
    destruct (abstract_inverted_index d) as [b|] eqn:Hb; [|now apply (IH _ m)].
    simpl in Hlen. inversion Hok as [|? ? Hd Hpre]; subst.
    simpl map. unfold processes in Hd.
    unfold yield_of in Hd |- * at 1. rewrite Hb in Hd |- *.
    destruct (process_texts self (display_name d) b) as [lemmas|e'];
      [clear Hd | now contradiction Hd].
    destruct (Z.eqb_spec (yielded + 1) n) as [E|E]; [lia|].
    destruct (IH (yielded + 1)%Z (m - 1)) as (ys & Hys & Hscan);
      [lia | lia | exact Hpre |].
    rewrite Hscan. eexists (_ :: ys). simpl. now rewrite Hys.
Qed.

Lemma qualifying_pages_app (page : Z) (k : nat) :
  qualifying_pages req_get url page (S k)
  = page_docs (req_get url page)
      ++ qualifying_pages req_get url (page + 1) k.
Proof. reflexivity. Qed.

(** The loop over pages that all have ['results'], up to the page on which
    the wanted number is reached or to the first page without
    ['results']. *)
Lemma get_docs_from_returns (k : nat) :
  forall (page yielded : Z) (m : nat),
    1 <= m -> (n - yielded)%Z = Z.of_nat m ->
    (forall j, j < k -> req_get url (page + Z.of_nat j) <> NoResults) ->
    m <= List.length (qualifying_pages req_get url page k)
      \/ req_get url (page + Z.of_nat k) = NoResults ->
    Forall (processes self) (firstn m (qualifying_pages req_get url page k)) ->
    exists ys,
      map Some ys
      = map (yield_of self) (firstn m (qualifying_pages req_get url page k))
      /\ forall fuel, k < fuel ->
           get_docs_from self req_get url n fuel yielded page
           = (ys, Finished).
Proof.
  induction k as [|k IH]; intros page yielded m Hm Hn Hres Hstop Hok.
  - exists []. simpl. rewrite firstn_nil. split; [reflexivity|].
    intros [|fuel] Hf; [lia|]. simpl.
    destruct Hstop as [Hstop|Hstop]; [simpl in Hstop; lia|].
    rewrite Z.add_0_r in Hstop. rewrite Hstop.
    destruct (Z.ltb_spec yielded n); [reflexivity | lia].
  - rewrite qualifying_pages_app in *.
    pose proof (Hres 0 ltac:(lia)) as H0. rewrite Z.add_0_r in H0.
    destruct (req_get url page) as [|docs] eqn:Hpage; [congruence|].
    simpl page_docs in *. rewrite firstn_app in Hok |- *.
    apply Forall_app in Hok as [Hok1 Hok2].
    destruct (scan_page_yields docs yielded m Hm Hn Hok1) as (ys & Hys & Hscan).
    destruct (Nat.ltb_spec (List.length (qualifying docs)) m) as [Hlt|Hge].
    + destruct (IH (page + 1)%Z
                  (yielded + Z.of_nat (List.length (qualifying docs)))%Z
                  (m - List.length (qualifying docs)))
        as (zs & Hzs & Hloop); [lia | lia | | | exact Hok2 |].
      * intros j Hj. specialize (Hres (S j) ltac:(lia)).
        now replace (page + 1 + Z.of_nat j)%Z with (page + Z.of_nat (S j))%Z
          by lia.
      * destruct Hstop as [Hstop|Hstop]; [left | right].
        -- rewrite length_app in Hstop. lia.
        -- now replace (page + 1 + Z.of_nat k)%Z
             with (page + Z.of_nat (S k))%Z by lia.
      * exists (ys ++ zs). rewrite !map_app, Hys, Hzs. split; [reflexivity|].
        intros [|fuel] Hf; [lia|]. simpl.
        destruct (Z.ltb_spec yielded n); [|lia].
        rewrite Hpage, Hscan, (Hloop fuel) by lia. reflexivity.
    + exists ys.
      replace (m - List.length (qualifying docs)) with 0 by lia.
      rewrite firstn_O, app_nil_r. split; [exact Hys|].
      intros [|fuel] Hf; [lia|]. simpl.
      destruct (Z.ltb_spec yielded n); [|lia].
      now rewrite Hpage, Hscan.
Qed.

(** The loop over pages that have ['results'] and too few documents, up to
    a page on which processing a document raises. *)
Lemma get_docs_from_raises (pre : list document) (doc : document)
    (post : list document) (a : dict (list Z)) (e : exn) :
  abstract_inverted_index doc = Some a ->
  process_texts self (display_name doc) a = Raise e ->
  forall (k : nat) (page yielded : Z) (m : nat),
    (n - yielded)%Z = Z.of_nat m ->
    (forall j, j < k -> req_get url (page + Z.of_nat j) <> NoResults) ->
    req_get url (page + Z.of_nat k) = Results (pre ++ doc :: post) ->
    List.length (qualifying_pages req_get url page k ++ qualifying pre) < m ->
    Forall (processes self) (qualifying_pages req_get url page k ++ qualifying pre) ->
    exists ys,
      map Some ys
      = map (yield_of self)
          (qualifying_pages req_get url page k ++ qualifying pre)
      /\ forall fuel, k < fuel ->
           get_docs_from self req_get url n fuel yielded page
           = (ys, Raised e).
Proof.
  intros Ha He.
  induction k as [|k IH]; intros page yielded m Hn Hres Hlast Hlen Hok.
  - simpl in *. rewrite Z.add_0_r in Hlast.
    destruct (scan_page_raises pre doc post a e Ha He yielded m Hn Hlen Hok)
      as (ys & Hys & Hscan).
    exists ys. split; [exact Hys|].
    intros [|fuel] Hf; [lia|]. simpl.
    destruct (Z.ltb_spec yielded n); [|lia].
    now rewrite Hlast, Hscan.
  - rewrite qualifying_pages_app in *.
    pose proof (Hres 0 ltac:(lia)) as H0. rewrite Z.add_0_r in H0.
    destruct (req_get url page) as [|docs] eqn:Hpage; [congruence|].
    simpl page_docs in *. rewrite <- app_assoc in *.
    rewrite length_app in Hlen.
    apply Forall_app in Hok as [Hok1 Hok2].
    assert (Hm : 1 <= m) by lia.
    destruct (scan_page_yields docs yielded m Hm Hn) as (ys & Hys & Hscan).
    { rewrite firstn_all2 by lia. exact Hok1. }
    rewrite firstn_all2 in Hys by lia.
    destruct (Nat.ltb_spec (List.length (qualifying docs)) m) as [Hlt|Hge];
      [|lia].
    destruct (IH (page + 1)%Z
                (yielded + Z.of_nat (List.length (qualifying docs)))%Z
                (m - List.length (qualifying docs)))
      as (zs & Hzs & Hloop); [lia | | | lia | exact Hok2 |].
    + intros j Hj. specialize (Hres (S j) ltac:(lia)).
      now replace (page + 1 + Z.of_nat j)%Z with (page + Z.of_nat (S j))%Z
        by lia.
    + now replace (page + 1 + Z.of_nat k)%Z
        with (page + Z.of_nat (S k))%Z by lia.
    + exists (ys ++ zs). split; [now rewrite !map_app, Hys, Hzs, !map_app|].
      intros [|fuel] Hf; [lia|]. simpl.
      destruct (Z.ltb_spec yielded n); [|lia].
      rewrite Hpage, Hscan, (Hloop fuel) by lia. reflexivity.
Qed.

(** The loop over pages that all have ['results'] and never hold the wanted
    number of documents between them does not end, however many steps are
    granted. *)
Lemma get_docs_from_diverges (fuel : nat) :
  forall (page yielded : Z) (m : nat),
    (n - yielded)%Z = Z.of_nat m ->
    (forall j, req_get url (page + Z.of_nat j) <> NoResults) ->
    (forall k, List.length (qualifying_pages req_get url page k) < m) ->
    (forall k, Forall (processes self) (qualifying_pages req_get url page k)) ->
    snd (get_docs_from self req_get url n fuel yielded page) = OutOfFuel.
Proof.
  induction fuel as [|fuel IH]; intros page yielded m Hn Hres Hlen Hok;
    [reflexivity|].
  simpl. pose proof (Hlen 0) as Hm. simpl in Hm.
  destruct (Z.ltb_spec yielded n); [|lia].
  pose proof (Hres 0) as H0. rewrite Z.add_0_r in H0.
  destruct (req_get url page) as [|docs] eqn:Hpage; [congruence|].
  assert (E1 : qualifying_pages req_get url page 1 = qualifying docs).
  { simpl. rewrite Hpage. simpl. apply app_nil_r. }
  pose proof (Hlen 1) as Hl1. pose proof (Hok 1) as Hok1.
  rewrite E1 in Hl1, Hok1.
  destruct (scan_page_yields docs yielded m) as (ys & _ & Hscan);
    [lia | exact Hn | now rewrite firstn_all2 by lia |].
  rewrite Hscan.
  destruct (Nat.ltb_spec (List.length (qualifying docs)) m); [|lia].
  specialize (IH (page + 1)%Z
                (yielded + Z.of_nat (List.length (qualifying docs)))%Z
                (m - List.length (qualifying docs))).
  destruct (get_docs_from self req_get url n fuel
              (yielded + Z.of_nat (List.length (qualifying docs)))
              (page + 1)) as [zs o].
  simpl in *. apply IH.
  - lia.
  - intros j. specialize (Hres (S j)).
    now replace (page + 1 + Z.of_nat j)%Z with (page + Z.of_nat (S j))%Z by lia.
  - intros k. specialize (Hlen (S k)).
    rewrite qualifying_pages_app, Hpage, length_app in Hlen.
    simpl page_docs in Hlen. lia.
  - intros k. specialize (Hok (S k)).
    rewrite qualifying_pages_app, Hpage in Hok.
    now apply Forall_app in Hok.
Qed.

End Fetcher.

(** C4 (amended). Let [n >= 1].  If the first [k] pages all have
    ['results'], and either the [n]-th qualifying document is on one of
    them or the page after them has no ['results'], and processing raises
    nothing on the documents concerned, then [get_docs] returns, having
    yielded the first [n] qualifying documents of those pages as processed,
    or all of them when they are fewer than [n].  If every page has
    ['results'] and the pages never hold [n] qualifying documents between
    them, [get_docs] does not return. *)
Theorem get_docs_yields_first_n (self : DocRetriever)
    (req_get : string -> Z -> response) (url : string) (n : Z) :
  let u := (url ++ page_query)%string in
  (1 <= n)%Z ->
  (forall k,
     let pages := qualifying_pages req_get u 1%Z k in
     (forall j, j < k -> req_get u (1 + Z.of_nat j)%Z <> NoResults) ->
     Z.to_nat n <= List.length pages
       \/ req_get u (1 + Z.of_nat k)%Z = NoResults ->
     Forall (processes self) (firstn (Z.to_nat n) pages) ->
     exists ys,
       (forall fuel, k < fuel ->
          get_docs self req_get fuel url n = (ys, Finished))
       /\ map Some ys = map (yield_of self) (firstn (Z.to_nat n) pages)
       /\ List.length ys = Nat.min (Z.to_nat n) (List.length pages))
  /\ ((forall j, req_get u (1 + Z.of_nat j)%Z <> NoResults) ->
      (forall k,
         List.length (qualifying_pages req_get u 1%Z k) < Z.to_nat n) ->
      (forall k, Forall (processes self) (qualifying_pages req_get u 1%Z k)) ->
      forall fuel, snd (get_docs self req_get fuel url n) = OutOfFuel).
Proof.
  intros u Hn. split.
  - intros k pages Hres Hstop Hok.
    destruct (get_docs_from_returns self req_get u n k 1%Z 0%Z (Z.to_nat n))
      as (ys & Hys & Hloop);
      [lia | lia | exact Hres | exact Hstop | exact Hok |].
    exists ys. split; [exact Hloop | split; [exact Hys|]].
    fold pages in Hys. apply (f_equal (@List.length _)) in Hys.
    rewrite !length_map, length_firstn in Hys. exact Hys.
  - intros Hres Hlen Hok fuel.
    apply (get_docs_from_diverges self req_get u n fuel 1%Z 0%Z (Z.to_nat n));
      [lia | exact Hres | exact Hlen | exact Hok].
Qed.

Lemma get_docs_yields_first_n_witness :
  exists ys,
    (forall fuel, 1 < fuel ->
       get_docs (Sample.retriever ["graph"; "maps"]) (Sample.short_collection 3)
         fuel "u" 5
       = (ys, Finished))
    /\ List.length ys = 3.
Proof.
  assert (H5 : (1 <= 5)%Z) by lia.
  destruct (get_docs_yields_first_n (Sample.retriever ["graph"; "maps"])
              (Sample.short_collection 3) "u" 5%Z H5) as [Hret _].
  destruct (Hret 1) as (ys & Hrun & _ & Hlen).
  - intros j Hj. replace j with 0 by lia. discriminate.
  - right. reflexivity.
  - repeat constructor; discriminate.
  - exists ys. split; [exact Hrun | exact Hlen].
Defined.

(** C4 as stated fails where every page has ['results'] and too few
    documents qualify: the generator never returns, whatever the number of
    steps granted; and where processing a qualifying document raises, the
    generator ends with the exception. *)
Lemma get_docs_may_never_return :
  (forall url page, Sample.empty_pages url page = Results [])
  /\ (forall fuel,
        get_docs (Sample.retriever []) Sample.empty_pages fuel "u" 1
        = ([], OutOfFuel))
  /\ get_docs (Sample.retriever []) Sample.untitled_then_titled 10 "u" 1
     = ([], Raised TypeError).
Proof.
  split; [reflexivity | split; [|reflexivity]].
  intros fuel. unfold get_docs. generalize 1%Z at 2 as page.
  induction fuel as [|fuel IH]; intros page; simpl; [reflexivity|].
  now rewrite IH.
Qed.

(** ** The run *)

Section BatchFacts.

Lemma set_get_same (V : Type) (d : dict V) (k : string) (v : V) :
  get k d = Some v -> set k v d = d.
Proof.
  induction d as [|[k' v'] d IH]; simpl; [discriminate|].
  destruct (String.eqb_spec k' k) as [->|N].
  - now intros [= ->].
  - intros H. now rewrite IH.
Qed.

(** Appending the yielded documents one by one to the subject's list. *)
Lemma collect_set (subject : string) (docs : list processed) (b : batch_t) :
  In subject (keys b) ->
  collect subject docs b = set subject (get_default subject [] b ++ docs) b.
Proof.
  unfold collect. revert b. induction docs as [|doc docs IH]; intros b Hin.
  - simpl. rewrite app_nil_r. symmetry. apply set_get_same.
    unfold get_default. destruct (get subject b) eqn:G; [reflexivity|].
    apply get_None_keys in G. contradiction.
  - simpl. rewrite IH.
    + unfold get_default at 1. rewrite get_set_same, set_set.
      now rewrite <- app_assoc.
    + destruct (in_dec string_dec subject (keys b)) as [_|N];
        [|contradiction].
      now rewrite keys_set_old.
Qed.

Lemma collect_fresh (subject : string) (docs : list processed) (b : batch_t) :
  collect subject docs (set subject [] b) = set subject docs b.
Proof.
  rewrite collect_set.
  - unfold get_default. now rewrite get_set_same, set_set.
  - destruct (in_dec string_dec subject (keys b)) as [H|H].
    + now rewrite keys_set_old.
    + rewrite set_new by assumption. unfold keys.
      rewrite map_app, in_app_iff. right. now left.
Qed.

Lemma n_records_app (b : batch_t) (subject : string) (docs : list processed) :
  n_records (b ++ [(subject, docs)])
  = (n_records b + Z.of_nat (List.length docs))%Z.
Proof.
  unfold n_records, values. rewrite !map_app, list_sum_app. simpl. lia.
Qed.

Lemma unit_keys_app (u v : list (Z * batch_t)) :
  unit_keys (u ++ v) = unit_keys u ++ unit_keys v.
Proof. apply flat_map_app. Qed.

Lemma unit_keys_one (nr : Z) (b : batch_t) : unit_keys [(nr, b)] = keys b.
Proof. unfold unit_keys. simpl. apply app_nil_r. Qed.

Lemma keys_snoc (b : batch_t) (subject : string) (docs : list processed) :
  keys (b ++ [(subject, docs)]) = keys b ++ [subject].
Proof. unfold keys. now rewrite map_app. Qed.

Lemma unit_keys_leftover (st : run_state) :
  unit_keys (leftover st) = keys (batch st).
Proof.
  unfold leftover. destruct (batch st) as [|e b]; simpl; [reflexivity|].
  now rewrite app_nil_r.
Qed.

Lemma get_done_subjects_concat (docs_dir : list (string * batch_t)) :
  get_done_subjects docs_dir = flat_map (fun file => keys (snd file)) docs_dir.
Proof.
  unfold get_done_subjects.
  assert (G : forall dir acc,
    fold_left (fun done file => done ++ keys (snd file)) dir acc
    = acc ++ flat_map (fun file : string * batch_t => keys (snd file)) dir).
  { induction dir as [|f dir IH]; intros acc; simpl.
    - now rewrite app_nil_r.
    - now rewrite IH, app_assoc. }
  apply (G docs_dir []).
Qed.

(** The done subjects are those of the files found. *)
Lemma is_done_spec (docs_dir : list (string * batch_t)) (s : string) :
  is_done (get_done_subjects docs_dir) s = true
  <-> exists file, In file docs_dir /\ In s (keys (snd file)).
Proof.
  unfold is_done. rewrite existsb_exists, get_done_subjects_concat. split.
  - intros (x & Hin & E). apply String.eqb_eq in E. subst x.
    now apply in_flat_map in Hin.
  - intros H. exists s. split; [now apply in_flat_map | apply String.eqb_refl].
Qed.

End BatchFacts.

Section Run.
Variable self : DocRetriever.
Variable req_get : string -> Z -> response.
Variable fuel : nat.
Variables n_docs n_file : Z.
Variable done : list string.

Local Notation "'inv'" :=
  (between_subjects self req_get fuel n_docs n_file done).
Local Notation "'whole'" := (whole_subjects self req_get fuel n_docs).

(** One subject, with the appending loop and the lookups worked out. *)
Lemma do_subject_eq (st : run_state) (subject : string) (sdata : subject_data) :
  do_subject self req_get fuel n_docs n_file st subject sdata
  = let (docs, o) := get_docs self req_get fuel (works_api_url sdata) n_docs in
    let b := set subject docs (batch st) in
    match o with
    | Finished =>
        let c := (cnt st + Z.of_nat (List.length docs))%Z in
        if (c >=? n_file)%Z then
          ({| batch := []; cnt := 0%Z; file_nr := (file_nr st + 1)%Z;
              dumped := dumped st ++ [(file_nr st, b)] |}, Finished)
        else
          ({| batch := b; cnt := c; file_nr := file_nr st;
              dumped := dumped st |}, Finished)
    | _ =>
        ({| batch := b; cnt := cnt st; file_nr := file_nr st;
            dumped := dumped st |}, o)
    end.
Proof.
  unfold do_subject.
  destruct (get_docs self req_get fuel (works_api_url sdata) n_docs)
    as [docs o].
  rewrite collect_fresh. cbv zeta.
  unfold get_default. rewrite get_set_same. reflexivity.
Qed.

Lemma main_loop_app (l1 l2 : dict subject_data) (st : run_state) :
  main_loop self req_get fuel n_docs n_file done (l1 ++ l2) st
  = match main_loop self req_get fuel n_docs n_file done l1 st with
    | (st', Finished) =>
        main_loop self req_get fuel n_docs n_file done l2 st'
    | r => r
    end.
Proof.
  revert st. induction l1 as [|[s d] l1 IH]; intros st; simpl; [reflexivity|].
  destruct (is_done done s); [apply IH|].
  destruct (do_subject self req_get fuel n_docs n_file st s d) as [st' o].
  destruct o; [apply IH | reflexivity | reflexivity].
Qed.

Lemma whole_more (seen more : dict subject_data) (b : batch_t) :
  whole seen b -> whole (seen ++ more) b.
Proof.
  intros H s docs Hin. destruct (H s docs Hin) as (sdata & Hs & Hg).
  exists sdata. split; [|exact Hg]. apply in_or_app. now left.
Qed.

Lemma pending_app (seen more : dict subject_data) :
  pending done (seen ++ more) = pending done seen ++ pending done more.
Proof.
  unfold pending, keys. now rewrite map_app, filter_app.
Qed.

Lemma inv_start : inv [] start.
Proof.
  unfold between_subjects, start, whole_subjects. simpl.
  repeat split; try constructor. intros s docs [].
Qed.

(** A subject that is done changes nothing. *)
Lemma inv_skip (seen : dict subject_data) (st : run_state)
    (subject : string) (sdata : subject_data) :
  is_done done subject = true ->
  inv seen st -> inv (seen ++ [(subject, sdata)]) st.
Proof.
  intros Hd (Hcnt & Hkeys & Hbig & Hwd & Hwb & Hnr & Hfile).
  repeat split; try assumption.
  - rewrite pending_app, Hkeys. unfold pending. simpl. rewrite Hd. simpl.
    now rewrite app_nil_r.
  - revert Hwd. apply Forall_impl. intros u. apply whole_more.
  - now apply whole_more.
Qed.

(** A subject that is not done and whose generator returns. *)
Lemma inv_step (seen : dict subject_data) (st st' : run_state)
    (subject : string) (sdata : subject_data) :
  is_done done subject = false ->
  ~ In subject (keys seen) ->
  inv seen st ->
  do_subject self req_get fuel n_docs n_file st subject sdata
  = (st', Finished) ->
  inv (seen ++ [(subject, sdata)]) st'.
Proof.
  intros Hd Hnew (Hcnt & Hkeys & Hbig & Hwd & Hwb & Hnr & Hfile).
  rewrite do_subject_eq.
  destruct (get_docs self req_get fuel (works_api_url sdata) n_docs)
    as [docs o] eqn:Hget.
  assert (Hfresh : ~ In subject (keys (batch st))).
  { intros Hin. apply Hnew.
    assert (H : In subject (pending done seen))
      by (rewrite <- Hkeys; apply in_or_app; now right).
    unfold pending in H. now apply filter_In in H. }
  assert (Hpend : pending done (seen ++ [(subject, sdata)])
                  = pending done seen ++ [subject]).
  { rewrite pending_app. unfold pending at 2. simpl. now rewrite Hd. }
  rewrite set_new by exact Hfresh. cbv zeta.
  destruct o; try (intros H; discriminate H).
  assert (Hwb' : whole (seen ++ [(subject, sdata)])
                   (batch st ++ [(subject, docs)])).
  { intros s ds Hin. apply in_app_or in Hin as [Hin|[E|[]]].
    - now apply (whole_more seen [(subject, sdata)] (batch st) Hwb).
    - injection E as <- <-. exists sdata. split; [|exact Hget].
      apply in_or_app. right. now left. }
  destruct (Z.geb_spec (cnt st + Z.of_nat (List.length docs)) n_file)
    as [Hge|Hlt]; intros [= <-]; unfold between_subjects;
    cbn [batch cnt file_nr dumped].
  - split; [reflexivity | split; [|split; [|split; [|split; [|split]]]]].
    + rewrite unit_keys_app, unit_keys_one, keys_snoc, app_nil_r.
      now rewrite app_assoc, Hkeys, Hpend.
    + apply Forall_app. split; [exact Hbig|]. constructor; [|constructor].
      cbn [snd]. rewrite n_records_app. lia.
    + apply Forall_app. split.
      * revert Hwd. apply Forall_impl. intros u. apply whole_more.
      * constructor; [exact Hwb' | constructor].
    + intros s ds [].
    + rewrite map_app, length_app, Hnr. cbn [map fst List.length].
      rewrite Nat.add_1_r, seq_S, map_app. cbn [map]. now rewrite Hfile.
    + rewrite length_app. cbn [List.length]. lia.
  - split; [|split; [|split; [|split; [|split; [|split]]]]].
    + rewrite n_records_app. lia.
    + now rewrite keys_snoc, app_assoc, Hkeys, Hpend.
    + exact Hbig.
    + revert Hwd. apply Forall_impl. intros u. apply whole_more.
    + exact Hwb'.
    + exact Hnr.
    + exact Hfile.
Qed.

(** A subject whose generator does not return ends the loop without a
    file being written. *)
Lemma do_subject_stops (st st' : run_state) (subject : string)
    (sdata : subject_data) (o : outcome) :
  do_subject self req_get fuel n_docs n_file st subject sdata = (st', o) ->
  o <> Finished ->
  dumped st' = dumped st
  /\ snd (get_docs self req_get fuel (works_api_url sdata) n_docs) = o.
Proof.
  rewrite do_subject_eq.
  destruct (get_docs self req_get fuel (works_api_url sdata) n_docs)
    as [docs o']. cbv zeta.
  destruct o'.
  - destruct (cnt st + Z.of_nat (List.length docs) >=? n_file)%Z;
      intros [= <- <-]; congruence.
  - intros [= <- <-]. now split.
  - intros [= <- <-]. now split.
Qed.

(** The loop keeps what holds between subjects; when it ends early, the
    files are those written before the subject it ended in. *)
Lemma main_loop_inv (rest : dict subject_data) :
  forall (seen : dict subject_data) (st st' : run_state) (o : outcome),
    inv seen st ->
    NoDup (keys (seen ++ rest)) ->
    main_loop self req_get fuel n_docs n_file done rest st = (st', o) ->
    exists seen' rest' st0,
      seen ++ rest = seen' ++ rest'
      /\ inv seen' st0
      /\ dumped st' = dumped st0
      /\ (o = Finished -> rest' = [] /\ st' = st0).
Proof.
  induction rest as [|[s d] rest IH]; intros seen st st' o Hinv Hnd; simpl.
  - intros [= <- <-]. exists seen, [], st.
    split; [reflexivity | split; [exact Hinv | now split]].
  - assert (Hs : ~ In s (keys seen)).
    { unfold keys in *. rewrite map_app in Hnd. simpl in Hnd.
      apply NoDup_remove_2 in Hnd. intros H. apply Hnd, in_or_app. now left. }
    assert (E : seen ++ (s, d) :: rest = (seen ++ [(s, d)]) ++ rest)
      by now rewrite <- app_assoc.
    rewrite E in *.
    destruct (is_done done s) eqn:Hd.
    + apply IH; [now apply inv_skip | exact Hnd].
    + destruct (do_subject self req_get fuel n_docs n_file st s d)
        as [st1 o1] eqn:Hdo.
      destruct o1.
      * apply IH; [now apply (inv_step seen st) | exact Hnd].
      * intros [= <- <-]. rewrite <- E.
        exists seen, ((s, d) :: rest), st.
        split; [reflexivity | split; [exact Hinv | split; [|discriminate]]].
        now apply (do_subject_stops _ _ _ _ _ Hdo).
      * intros [= <- <-]. rewrite <- E.
        exists seen, ((s, d) :: rest), st.
        split; [reflexivity | split; [exact Hinv | split; [|discriminate]]].
        now apply (do_subject_stops _ _ _ _ _ Hdo).
Qed.

Lemma pending_NoDup (seen : dict subject_data) :
  NoDup (keys seen) -> NoDup (pending done seen).
Proof. intros H. unfold pending. now apply NoDup_filter. Qed.

End Run.

Section RunFacts.
Variable self : DocRetriever.
Variable req_get : string -> Z -> response.
Variable docs_dir : list (string * batch_t).
Variable subjects : dict subject_data.
Variable fuel : nat.
Variables n_docs n_file : Z.
Hypothesis Hwf : wf subjects.

Local Notation "'done'" := (get_done_subjects docs_dir).

Lemma main_eq (st : run_state) (o : outcome) :
  main_loop self req_get fuel n_docs n_file done subjects start = (st, o) ->
  main self req_get docs_dir subjects fuel n_docs n_file
  = (dumped st ++ match o with Finished => leftover st | _ => [] end, o).
Proof.
  intros H. unfold main. rewrite H.
  destruct o; [reflexivity | |]; now rewrite app_nil_r.
Qed.

(** The files of a run are those of a state between two subjects, with
    the leftover batch when the run went through all subjects. *)
Lemma main_units (units : list (Z * batch_t)) (o : outcome) :
  main self req_get docs_dir subjects fuel n_docs n_file = (units, o) ->
  exists seen rest st,
    subjects = seen ++ rest
    /\ between_subjects self req_get fuel n_docs n_file done seen st
    /\ units
       = dumped st ++ match o with Finished => leftover st | _ => [] end
    /\ (o = Finished -> rest = []).
Proof.
  destruct (main_loop self req_get fuel n_docs n_file done subjects start)
    as [st' o'] eqn:Hloop.
  rewrite (main_eq st' o' Hloop). intros [= <- <-].
  destruct (main_loop_inv self req_get fuel n_docs n_file done subjects
              [] start st' o' (inv_start _ _ _ _ _ _) Hwf Hloop)
    as (seen & rest & st0 & E & Hinv & Hd & Hfin).
  exists seen, rest, st0. split; [exact E | split; [exact Hinv | split]].
  - rewrite Hd. destruct o'; try reflexivity.
    destruct (Hfin eq_refl) as [_ ->]. reflexivity.
  - intros Ho. now apply Hfin.
Qed.

End RunFacts.

Section RunReads.
Variable self : DocRetriever.
Variables r1 r2 : string -> Z -> response.

(** The loop over the pages of a URL reads the responses of that URL only. *)
Lemma get_docs_from_ext (url : string) (n : Z) :
  (forall page, r1 url page = r2 url page) ->
  forall fuel yielded page,
    get_docs_from self r1 url n fuel yielded page
    = get_docs_from self r2 url n fuel yielded page.
Proof.
  intros H. induction fuel as [|fuel IH]; intros yielded page; simpl;
    [reflexivity|].
  rewrite H. destruct (yielded <? n)%Z; [|reflexivity].
  destruct (r2 url page) as [|docs]; [reflexivity|].
  destruct (scan_page self n yielded docs) as [ys [y'|o]]; [|reflexivity].
  now rewrite IH.
Qed.

Lemma main_loop_ext (fuel : nat) (n_docs n_file : Z) (done : list string)
    (subjects : dict subject_data) :
  (forall s sd page,
     In (s, sd) subjects -> is_done done s = false ->
     r1 (works_api_url sd ++ page_query)%string page
     = r2 (works_api_url sd ++ page_query)%string page) ->
  forall st,
    main_loop self r1 fuel n_docs n_file done subjects st
    = main_loop self r2 fuel n_docs n_file done subjects st.
Proof.
  induction subjects as [|[s sd] rest IH]; intros H st; simpl; [reflexivity|].
  assert (Hrest : forall s' sd' page,
            In (s', sd') rest -> is_done done s' = false ->
            r1 (works_api_url sd' ++ page_query)%string page
            = r2 (works_api_url sd' ++ page_query)%string page)
    by (intros s' sd' page Hin; apply H; now right).
  destruct (is_done done s) eqn:Hd; [now apply IH|].
  assert (E : do_subject self r1 fuel n_docs n_file st s sd
              = do_subject self r2 fuel n_docs n_file st s sd).
  { unfold do_subject, get_docs.
    rewrite (get_docs_from_ext (works_api_url sd ++ page_query)%string n_docs);
      [reflexivity|].
    intros page. apply (H s sd page); [now left | exact Hd]. }
  rewrite E.
  destruct (do_subject self r2 fuel n_docs n_file st s sd) as [st' [| |]];
    [now apply IH | reflexivity | reflexivity].
Qed.

End RunReads.

Section FileSizes.
Variable self : DocRetriever.
Variable req_get : string -> Z -> response.
Variable fuel : nat.
Variables n_docs n_file : Z.
Variable done : list string.

(** A property [C] of the count and a property [Q] of the files written
    that every subject that goes through keeps. *)
Variable C : Z -> Prop.
Variable Q : list (Z * batch_t) -> Prop.
Variable all : dict subject_data.

Hypothesis Hstep :
  forall (st : run_state) (s : string) (sd : subject_data)
         (docs : list processed),
    In (s, sd) all -> is_done done s = false ->
    get_docs self req_get fuel (works_api_url sd) n_docs = (docs, Finished) ->
    cnt st = n_records (batch st) ->
    C (cnt st) -> Q (dumped st) ->
    let c := (cnt st + Z.of_nat (List.length docs))%Z in
    if (c >=? n_file)%Z
    then C 0%Z /\ Q (dumped st ++ [(file_nr st, batch st ++ [(s, docs)])])
    else C c.

Lemma batch_fresh (seen : dict subject_data) (st : run_state) (s : string) :
  between_subjects self req_get fuel n_docs n_file done seen st ->
  ~ In s (keys seen) -> ~ In s (keys (batch st)).
Proof.
  intros (_ & Hkeys & _) Hnew Hin. apply Hnew.
  assert (H : In s (pending done seen))
    by (rewrite <- Hkeys; apply in_or_app; now right).
  unfold pending in H. now apply filter_In in H.
Qed.

Lemma main_loop_keeps (rest : dict subject_data) :
  forall (seen : dict subject_data) (st st' : run_state) (o : outcome),
    incl rest all ->
    between_subjects self req_get fuel n_docs n_file done seen st ->
    NoDup (keys (seen ++ rest)) ->
    C (cnt st) -> Q (dumped st) ->
    main_loop self req_get fuel n_docs n_file done rest st = (st', o) ->
    Q (dumped st')
    /\ (o = Finished -> C (cnt st') /\ cnt st' = n_records (batch st')).
Proof.
  induction rest as [|[s sd] rest IH];
    intros seen st st' o Hall Hinv Hnd HC HQ; simpl.
  - intros [= <- <-]. split; [exact HQ|]. intros _. split; [exact HC|].
    now destruct Hinv.
  - assert (Hs : ~ In s (keys seen)).
    { unfold keys in *. rewrite map_app in Hnd. simpl in Hnd.
      apply NoDup_remove_2 in Hnd. intros H. apply Hnd, in_or_app. now left. }
    assert (E : seen ++ (s, sd) :: rest = (seen ++ [(s, sd)]) ++ rest)
      by now rewrite <- app_assoc.
    rewrite E in Hnd.
    assert (Hrest : incl rest all) by (intros e He; apply Hall; now right).
    destruct (is_done done s) eqn:Hd.
    + apply (IH (seen ++ [(s, sd)])); try assumption. now apply inv_skip.
    + destruct (do_subject self req_get fuel n_docs n_file st s sd)
        as [st1 o1] eqn:Hdo.
      destruct o1.
      * pose proof (inv_step self req_get fuel n_docs n_file done seen st st1
                      s sd Hd Hs Hinv Hdo) as Hinv1.
        assert (H1 : C (cnt st1) /\ Q (dumped st1)).
        { rewrite do_subject_eq in Hdo.
          destruct (get_docs self req_get fuel (works_api_url sd) n_docs)
            as [docs o'] eqn:Hget.
          rewrite set_new in Hdo by now apply (batch_fresh seen).
          cbv zeta in Hdo. destruct o'; try discriminate Hdo.
          pose proof (Hstep st s sd docs (Hall _ (or_introl eq_refl)) Hd Hget
                        (proj1 Hinv) HC HQ) as H.
          cbv zeta in H.
          destruct (cnt st + Z.of_nat (List.length docs) >=? n_file)%Z;
            injection Hdo as <-; simpl; tauto. }
        apply (IH (seen ++ [(s, sd)])); tauto.
      * intros [= <- <-].
        destruct (do_subject_stops _ _ _ _ _ _ _ _ _ _ Hdo) as [-> _];
          [discriminate|]. split; [exact HQ | discriminate].
      * intros [= <- <-].
        destruct (do_subject_stops _ _ _ _ _ _ _ _ _ _ Hdo) as [-> _];
          [discriminate|]. split; [exact HQ | discriminate].
Qed.

End FileSizes.

Section RunPending.
Variable self : DocRetriever.
Variable req_get : string -> Z -> response.
Variable fuel : nat.
Variables n_docs n_file : Z.
Variable done : list string.

(** The subjects that are done take no part in the loop: it is the loop
    over the subjects that are not done. *)
Lemma main_loop_pending (subjects : dict subject_data) :
  forall st,
    main_loop self req_get fuel n_docs n_file done subjects st
    = main_loop self req_get fuel n_docs n_file done
        (filter (fun e => negb (is_done done (fst e))) subjects) st.
Proof.
  induction subjects as [|[s sd] rest IH]; intros st; [reflexivity|].
  cbn [main_loop filter fst].
  destruct (is_done done s) eqn:Hd; cbn [negb]; [apply IH|].
  cbn [main_loop]. rewrite Hd.
  destruct (do_subject self req_get fuel n_docs n_file st s sd)
    as [st' [| |]]; [apply IH | reflexivity | reflexivity].
Qed.

End RunPending.

(** C5. The count is compared with [n_file] once per subject, after the
    generator has returned: when it has reached [n_file] the batch with
    that subject is written as one file and an empty batch is started, and
    otherwise nothing is written.  So the files written inside the loop,
    which are all files but the leftover one, hold at least [n_file]
    records each, and before their last subject was added they held fewer
    (or none); the leftover batch holds fewer than [n_file] (or none); and
    every file holds, for each of its subjects, all that [get_docs] yielded
    for it.  With two subjects yielding 6 and 7 documents and a threshold
    above 6 and up to 13, [n_file = 10] say, the one file is written inside
    the loop, after the second subject, and nothing is left over. *)
Theorem flush_after_whole_subjects (self : DocRetriever)
    (req_get : string -> Z -> response) (docs_dir : list (string * batch_t))
    (subjects : dict subject_data) (fuel : nat) (n_docs n_file : Z)
    (st : run_state) (o : outcome) :
  wf subjects ->
  main_loop self req_get fuel n_docs n_file (get_done_subjects docs_dir)
    subjects start = (st, o) ->
  main self req_get docs_dir subjects fuel n_docs n_file
  = (dumped st ++ match o with Finished => leftover st | _ => [] end, o)
  /\ Forall (fun u => (n_file <= n_records (snd u))%Z) (dumped st)
  /\ Forall (fun u => whole_subjects self req_get fuel n_docs subjects (snd u))
       (fst (main self req_get docs_dir subjects fuel n_docs n_file))
  /\ (forall A dA B dB docsA docsB threshold,
        A <> B ->
        get_docs self req_get fuel (works_api_url dA) n_docs = (docsA, Finished) ->
        get_docs self req_get fuel (works_api_url dB) n_docs = (docsB, Finished) ->
        List.length docsA = 6 -> List.length docsB = 7 ->
        (6 < threshold <= 13)%Z ->
        main_loop self req_get fuel n_docs threshold (get_done_subjects [])
          [(A, dA); (B, dB)] start
        = ({| batch := []; cnt := 0%Z; file_nr := 2%Z;
              dumped := [(1%Z, [(A, docsA); (B, docsB)])] |}, Finished)
        /\ main self req_get [] [(A, dA); (B, dB)] fuel n_docs threshold
           = ([(1%Z, [(A, docsA); (B, docsB)])], Finished)
        /\ n_records [(A, docsA); (B, docsB)] = 13%Z)
  /\ (forall st0 s sd docs,
        ~ In s (keys (batch st0)) ->
        get_docs self req_get fuel (works_api_url sd) n_docs = (docs, Finished) ->
        do_subject self req_get fuel n_docs n_file st0 s sd
        = if (cnt st0 + Z.of_nat (List.length docs) >=? n_file)%Z
          then ({| batch := []; cnt := 0%Z; file_nr := (file_nr st0 + 1)%Z;
                   dumped := dumped st0
                             ++ [(file_nr st0, batch st0 ++ [(s, docs)])] |},
                Finished)
          else ({| batch := batch st0 ++ [(s, docs)];
                   cnt := (cnt st0 + Z.of_nat (List.length docs))%Z;
                   file_nr := file_nr st0; dumped := dumped st0 |}, Finished))
  /\ Forall
       (fun u => exists b s docs,
                   snd u = b ++ [(s, docs)]
                   /\ ((n_records b < n_file)%Z \/ n_records b = 0%Z))
       (dumped st)
  /\ (o = Finished ->
      (n_records (batch st) < n_file)%Z \/ n_records (batch st) = 0%Z).
Proof.
  intros Hwf Hloop.
  pose proof (main_eq self req_get docs_dir subjects fuel n_docs n_file st o
                Hloop) as Hmain.
  destruct (main_loop_inv self req_get fuel n_docs n_file
              (get_done_subjects docs_dir) subjects [] start st o
              (inv_start _ _ _ _ _ _) Hwf Hloop)
    as (seen & rest & st0 & E & Hinv & Hd & Hfin).
  simpl in E.
  destruct Hinv as (_ & _ & Hbig & Hwd & Hwb & _ & _).
  assert (Hrule : forall st1 s sd docs,
    ~ In s (keys (batch st1)) ->
    get_docs self req_get fuel (works_api_url sd) n_docs = (docs, Finished) ->
    forall threshold,
      do_subject self req_get fuel n_docs threshold st1 s sd
      = if (cnt st1 + Z.of_nat (List.length docs) >=? threshold)%Z
        then ({| batch := []; cnt := 0%Z; file_nr := (file_nr st1 + 1)%Z;
                 dumped := dumped st1
                           ++ [(file_nr st1, batch st1 ++ [(s, docs)])] |},
              Finished)
        else ({| batch := batch st1 ++ [(s, docs)];
                 cnt := (cnt st1 + Z.of_nat (List.length docs))%Z;
                 file_nr := file_nr st1; dumped := dumped st1 |}, Finished)).
  { intros st1 s sd docs Hs Hget threshold.
    rewrite do_subject_eq, Hget, set_new by exact Hs. reflexivity. }
  split; [exact Hmain | split; [now rewrite Hd | split; [|split; [|split]]]].
  - rewrite Hmain. cbn [fst]. subst subjects.
    apply Forall_app. split.
    + rewrite Hd. revert Hwd. apply Forall_impl. intros u. apply whole_more.
    + destruct o; try constructor.
      destruct (Hfin eq_refl) as [_ ->]. unfold leftover.
      destruct (0 <? List.length (batch st0)); constructor; [|constructor].
      now apply whole_more.
  - intros A dA B dB docsA docsB threshold HAB HA HB H6 H7 Hth.
    assert (Hl : main_loop self req_get fuel n_docs threshold
                   (get_done_subjects []) [(A, dA); (B, dB)] start
                 = ({| batch := []; cnt := 0%Z; file_nr := 2%Z;
                       dumped := [(1%Z, [(A, docsA); (B, docsB)])] |},
                    Finished)).
    { cbn [main_loop get_done_subjects fold_left is_done existsb].
      rewrite (Hrule start A dA docsA) by (simpl; tauto || exact HA).
      cbn [start batch cnt file_nr dumped]. rewrite H6.
      destruct (Z.geb_spec (0 + Z.of_nat 6) threshold) as [Hge|Hlt]; [lia|].
      rewrite (Hrule _ B dB docsB);
        [ | cbn [batch keys map fst app]; intros [HE|[]]; now apply HAB
          | exact HB ].
      cbn [batch cnt file_nr dumped]. rewrite H7.
      destruct (Z.geb_spec (0 + Z.of_nat 6 + Z.of_nat 7) threshold)
        as [Hge|Hlt']; [reflexivity | lia]. }
    split; [exact Hl | split].
    + unfold main. rewrite Hl. reflexivity.
    + unfold n_records. simpl. rewrite H6, H7. reflexivity.
  - intros st1 s sd docs Hs Hget. now apply Hrule.
  - destruct (main_loop_keeps self req_get fuel n_docs n_file
                (get_done_subjects docs_dir)
                (fun c => (c < n_file)%Z \/ c = 0%Z)
                (Forall (fun u => exists b s docs,
                           snd u = b ++ [(s, docs)]
                           /\ ((n_records b < n_file)%Z \/ n_records b = 0%Z)))
                subjects) with (rest := subjects)
                (seen := @nil (string * subject_data))
                (st := start) (st' := st) (o := o) as [HQ HC].
    + intros st1 s sd docs _ _ Hget Hcnt Hc HQ. cbv zeta.
      destruct (Z.geb_spec (cnt st1 + Z.of_nat (List.length docs)) n_file).
      * split; [now right|]. apply Forall_app. split; [exact HQ|].
        constructor; [|constructor]. cbn [snd].
        exists (batch st1), s, docs. split; [reflexivity|].
        now rewrite <- Hcnt.
      * now left.
    + apply incl_refl.
    + apply inv_start.
    + exact Hwf.
    + now right.
    + constructor.
    + exact Hloop.
    + split; [exact HQ|]. intros Ho.
      destruct (HC Ho) as [Hc Hcnt]. now rewrite <- Hcnt.
Qed.

Lemma flush_after_whole_subjects_witness :
  let subjects := [("A", {| works_api_url := "urlA" |});
                   ("B", {| works_api_url := "urlB" |});
                   ("C", {| works_api_url := "urlC" |})] in
  let st := fst (main_loop (Sample.retriever ["graph"; "maps"])
                   Sample.six_seven 5 50 10 (get_done_subjects [])
                   subjects start) in
  let run := main (Sample.retriever ["graph"; "maps"]) Sample.six_seven []
               subjects 5 50 10 in
  unit_sizes (dumped st) = [(1%Z, [("A", 6); ("B", 7)])]
  /\ unit_sizes (fst run) = [(1%Z, [("A", 6); ("B", 7)]); (2%Z, [("C", 7)])]
  /\ unit_sizes
       (dumped (fst (main_loop (Sample.retriever ["graph"; "maps"])
                       Sample.six_seven 5 50 13 (get_done_subjects [])
                       subjects start)))
     = [(1%Z, [("A", 6); ("B", 7)])]
  /\ Forall (fun u => (10 <= n_records (snd u))%Z) (dumped st)
  /\ ((n_records (batch st) < 10)%Z \/ n_records (batch st) = 0%Z).
Proof.
  intros subjects st run.
  destruct (flush_after_whole_subjects (Sample.retriever ["graph"; "maps"])
              Sample.six_seven [] subjects 5 50 10 st Finished)
    as (_ & Hbig & _ & _ & _ & _ & Hleft).
  - unfold wf, subjects. simpl.
    repeat constructor; simpl; intuition discriminate.
  - vm_compute. reflexivity.
  - split; [vm_compute; reflexivity | split; [vm_compute; reflexivity|]].
    split; [vm_compute; reflexivity|].
    split; [exact Hbig | exact (Hleft eq_refl)].
Defined.

(** C6. The done subjects are those that are a key of some file found,
    and they take no part in the run: the run is the run on the subjects
    that are not done alone, and it reads the upstream at the URLs of those
    only, so that nothing is fetched or processed for a subject that is
    done.  With no subject twice in the input, every subject of a file the
    run writes is a subject of the input that is not done; and when the run
    goes through, the subjects of its files are, in order, the subjects of
    the input that are not done. *)
Theorem done_subjects_are_skipped (self : DocRetriever)
    (req_get : string -> Z -> response) (docs_dir : list (string * batch_t))
    (subjects : dict subject_data) (fuel : nat) (n_docs n_file : Z)
    (units : list (Z * batch_t)) (o : outcome) :
  wf subjects ->
  main self req_get docs_dir subjects fuel n_docs n_file = (units, o) ->
  (forall s,
     is_done (get_done_subjects docs_dir) s = true
     <-> exists file, In file docs_dir /\ In s (keys (snd file)))
  /\ (forall s,
        In s (unit_keys units) ->
        In s (keys subjects) /\ is_done (get_done_subjects docs_dir) s = false)
  /\ (o = Finished ->
      unit_keys units = pending (get_done_subjects docs_dir) subjects)
  /\ main self req_get docs_dir
       (filter (fun e => negb (is_done (get_done_subjects docs_dir) (fst e)))
          subjects)
       fuel n_docs n_file
     = (units, o)
  /\ forall other_get : string -> Z -> response,
       (forall s sd page,
          In (s, sd) subjects ->
          is_done (get_done_subjects docs_dir) s = false ->
          req_get (works_api_url sd ++ page_query)%string page
          = other_get (works_api_url sd ++ page_query)%string page) ->
       main self other_get docs_dir subjects fuel n_docs n_file = (units, o).
Proof.
  intros Hwf Hmain.
  destruct (main_units self req_get docs_dir subjects fuel n_docs n_file Hwf
              _ _ Hmain) as (seen & rest & st & E & Hinv & Hunits & Hfin).
  destruct Hinv as (_ & Hkeys & _).
  assert (Hall : unit_keys (dumped st ++ leftover st)
                 = pending (get_done_subjects docs_dir) seen)
    by now rewrite unit_keys_app, unit_keys_leftover.
  split; [intros s; apply is_done_spec | split; [|split; [|split]]].
  - intros s Hs.
    assert (Hp : In s (pending (get_done_subjects docs_dir) seen)).
    { rewrite <- Hall. rewrite unit_keys_app. apply in_or_app.
      rewrite Hunits, unit_keys_app in Hs.
      apply in_app_or in Hs as [Hs|Hs]; [now left | right].
      destruct o; [exact Hs | destruct Hs | destruct Hs]. }
    unfold pending in Hp. apply filter_In in Hp as [Hin Hd].
    split.
    + rewrite E. unfold keys in *. rewrite map_app. apply in_or_app. now left.
    + now destruct (is_done (get_done_subjects docs_dir) s).
  - intros ->. rewrite Hunits, Hall, E, (Hfin eq_refl). now rewrite app_nil_r.
  - rewrite <- Hmain. unfold main. now rewrite <- main_loop_pending.
  - intros other_get Hagree. rewrite <- Hmain. unfold main.
    now rewrite (main_loop_ext self req_get other_get fuel n_docs n_file _
                   subjects Hagree).
Qed.

Lemma done_subjects_are_skipped_witness :
  let docs_dir := [("1.json", [("X", []); ("Y", [])])] in
  let subjects := [("X", {| works_api_url := "urlX" |});
                   ("Y", {| works_api_url := "urlY" |});
                   ("Z", {| works_api_url := "urlZ" |})] in
  let run := main (Sample.retriever ["graph"; "maps"]) Sample.only_z docs_dir
               subjects 5 50 2000 in
  get_done_subjects docs_dir = ["X"; "Y"]
  /\ snd (get_docs (Sample.retriever ["graph"; "maps"]) Sample.only_z 5
            "urlX" 50)
     = Raised TypeError
  /\ unit_sizes (fst run) = [(1%Z, [("Z", 2)])]
  /\ snd run = Finished
  /\ unit_keys (fst run) = ["Z"]
  /\ main (Sample.retriever ["graph"; "maps"]) Sample.only_z docs_dir
       [("Z", {| works_api_url := "urlZ" |})] 5 50 2000
     = (fst run, Finished).
Proof.
  intros docs_dir subjects run.
  split; [reflexivity | split; [reflexivity|]].
  split; [vm_compute; reflexivity | split; [vm_compute; reflexivity|]].
  destruct (done_subjects_are_skipped (Sample.retriever ["graph"; "maps"])
              Sample.only_z docs_dir subjects 5 50 2000 (fst run) Finished)
    as (_ & _ & Hkeys & Hpending & _).
  - unfold wf, subjects. simpl.
    repeat constructor; simpl; intuition discriminate.
  - vm_compute. reflexivity.
  - split; [rewrite (Hkeys eq_refl); reflexivity | exact Hpending].
Defined.

(** C10. With no subject twice in the input, no subject is a key of two
    files of a run, nor twice a key of one; and the files are numbered
    1, 2, 3, ... in the order written. *)
Theorem subject_in_one_unit (self : DocRetriever)
    (req_get : string -> Z -> response) (docs_dir : list (string * batch_t))
    (subjects : dict subject_data) (fuel : nat) (n_docs n_file : Z)
    (units : list (Z * batch_t)) (o : outcome) :
  wf subjects ->
  main self req_get docs_dir subjects fuel n_docs n_file = (units, o) ->
  NoDup (unit_keys units)
  /\ map fst units = map Z.of_nat (seq 1 (List.length units)).
Proof.
  intros Hwf Hmain.
  destruct (main_units self req_get docs_dir subjects fuel n_docs n_file Hwf
              _ _ Hmain) as (seen & rest & st & E & Hinv & Hunits & Hfin).
  destruct Hinv as (_ & Hkeys & _ & _ & _ & Hnr & Hfile).
  assert (Hnd : NoDup (unit_keys (dumped st) ++ keys (batch st))).
  { rewrite Hkeys. apply pending_NoDup.
    unfold wf, keys in *. rewrite E, map_app in Hwf.
    now apply NoDup_app_remove_r in Hwf. }
  assert (Hd : NoDup (unit_keys (dumped st)))
    by now apply NoDup_app_remove_r in Hnd.
  rewrite Hunits. destruct o.
  - split.
    + now rewrite unit_keys_app, unit_keys_leftover.
    + unfold leftover. destruct (0 <? List.length (batch st)).
      * rewrite map_app, length_app, Hnr. cbn [map fst List.length].
        now rewrite Nat.add_1_r, seq_S, map_app, Hfile.
      * now rewrite app_nil_r.
  - rewrite app_nil_r. now split.
  - rewrite app_nil_r. now split.
Qed.

Lemma subject_in_one_unit_witness :
  let subjects := [("A", {| works_api_url := "urlA" |});
                   ("B", {| works_api_url := "urlB" |});
                   ("C", {| works_api_url := "urlC" |})] in
  let units := fst (main (Sample.retriever ["graph"; "maps"])
                      Sample.six_seven [] subjects 5 50 10) in
  unit_sizes units = [(1%Z, [("A", 6); ("B", 7)]); (2%Z, [("C", 7)])]
  /\ NoDup (unit_keys units).
Proof.
  intros subjects units. split; [vm_compute; reflexivity|].
  destruct (subject_in_one_unit (Sample.retriever ["graph"; "maps"])
              Sample.six_seven [] subjects 5 50 10 units Finished)
    as (H & _).
  - unfold wf, subjects. simpl.
    repeat constructor; simpl; intuition discriminate.
  - vm_compute. reflexivity.
  - exact H.
Defined.

(** C3 (amended). Nothing catches an exception raised while a document is
    processed.  Let the subjects [before] have gone through, and let the
    next subject not be done; on its pages let a qualifying document be
    reached, before the wanted number is, whose processing raises [e].
    Then [get_docs] ends with [e], having yielded the qualifying documents
    before that one, and the run ends with [e]: its files are those written
    for the subjects before, and the subjects in [rest] are not looked at. *)
Theorem exception_ends_the_run (self : DocRetriever)
    (req_get : string -> Z -> response) (docs_dir : list (string * batch_t))
    (before : dict subject_data) (subject : string) (sdata : subject_data)
    (rest : dict subject_data) (fuel : nat) (n_docs n_file : Z)
    (st : run_state) (k : nat) (pre : list document) (doc : document)
    (post : list document) (a : dict (list Z)) (e : exn) :
  let url := (works_api_url sdata ++ page_query)%string in
  let earlier := qualifying_pages req_get url 1%Z k ++ qualifying pre in
  main_loop self req_get fuel n_docs n_file (get_done_subjects docs_dir)
    before start = (st, Finished) ->
  is_done (get_done_subjects docs_dir) subject = false ->
  (forall j, j < k -> req_get url (1 + Z.of_nat j)%Z <> NoResults) ->
  req_get url (1 + Z.of_nat k)%Z = Results (pre ++ doc :: post) ->
  List.length earlier < Z.to_nat n_docs ->
  Forall (processes self) earlier ->
  abstract_inverted_index doc = Some a ->
  process_texts self (display_name doc) a = Raise e ->
  k < fuel ->
  (exists ys,
     get_docs self req_get fuel (works_api_url sdata) n_docs = (ys, Raised e)
     /\ map Some ys = map (yield_of self) earlier)
  /\ main self req_get docs_dir (before ++ (subject, sdata) :: rest) fuel
       n_docs n_file
     = (dumped st, Raised e).
Proof.
  intros url earlier Hbefore Hdone Hres Hlast Hlen Hok Ha He Hfuel.
  destruct (get_docs_from_raises self req_get url n_docs pre doc post a e Ha He
              k 1%Z 0%Z (Z.to_nat n_docs)) as (ys & Hys & Hloop);
    [lia | exact Hres | exact Hlast | exact Hlen | exact Hok |].
  assert (Hget : get_docs self req_get fuel (works_api_url sdata) n_docs
                 = (ys, Raised e)) by (apply Hloop; exact Hfuel).
  split; [exists ys; now split|].
  unfold main. rewrite main_loop_app, Hbefore. simpl.
  rewrite Hdone, do_subject_eq, Hget. reflexivity.
Qed.

Lemma exception_ends_the_run_witness :
  let subjects := [("A", {| works_api_url := "urlA" |});
                   ("B", {| works_api_url := "urlB" |})] in
  get_docs (Sample.retriever ["graph"; "maps"]) Sample.untitled_then_titled
    5 "urlA" 50
  = ([], Raised TypeError)
  /\ main (Sample.retriever ["graph"; "maps"]) Sample.untitled_then_titled []
       subjects 5 50 2000
     = ([], Raised TypeError).
Proof.
  intros subjects.
  destruct (exception_ends_the_run (Sample.retriever ["graph"; "maps"])
              Sample.untitled_then_titled [] [] "A"
              {| works_api_url := "urlA" |}
              [("B", {| works_api_url := "urlB" |})] 5 50 2000 start 0 []
              (Sample.doc None (Some [("graph", [0%Z])]))
              [Sample.doc (Some "maps") (Some [("graph", [0%Z])])]
              [("graph", [0%Z])] TypeError)
    as ((ys & Hget & Hys) & Hmain).
  - reflexivity.
  - reflexivity.
  - intros j Hj. lia.
  - reflexivity.
  - simpl. lia.
  - constructor.
  - reflexivity.
  - reflexivity.
  - lia.
  - destruct ys as [|y ys]; [|discriminate Hys].
    split; [exact Hget | exact Hmain].
Defined.

(** C3 as stated fails: a qualifying document without a title makes
    [str + None] raise; the document after it on the page is not yielded,
    the next subject is not processed, and the run ends with the exception
    and no file written.  Without that document the run goes through and
    writes a file with both subjects. *)
Lemma exception_is_not_caught :
  let subjects := [("A", {| works_api_url := "urlA" |});
                   ("B", {| works_api_url := "urlB" |})] in
  process_texts (Sample.retriever ["graph"; "maps"]) None [("graph", [0%Z])]
  = Raise TypeError
  /\ get_docs (Sample.retriever ["graph"; "maps"]) Sample.untitled_then_titled
       5 "urlA" 50
     = ([], Raised TypeError)
  /\ main (Sample.retriever ["graph"; "maps"]) Sample.untitled_then_titled []
       subjects 5 50 2000
     = ([], Raised TypeError)
  /\ unit_sizes
       (fst (main (Sample.retriever ["graph"; "maps"])
               (Sample.short_collection 1) [] subjects 5 50 2000))
     = [(1%Z, [("A", 1); ("B", 1)])].
Proof.
  repeat split.
Qed.

(** * Further properties of [get_publications.py] *)

(** ** What the fetcher yields, however it ends *)

Section FetcherInvariants.
Variable self : DocRetriever.
Variable req_get : string -> Z -> response.
Variable url : string.
Variable n : Z.

(** Whatever a page holds and however its scan ends, the documents yielded
    are the first qualifying ones of the page, processed, in their order. *)
Lemma scan_page_prefix (docs : list document) :
  forall (yielded : Z) (ys : list processed) (e : page_end),
    (yielded < n)%Z ->
    scan_page self n yielded docs = (ys, e) ->
    exists m,
      m <= List.length (qualifying docs)
      /\ map Some ys = map (yield_of self) (firstn m (qualifying docs))
      /\ (yielded + Z.of_nat m <= n)%Z
      /\ match e with
         | NextPage y' =>
             m = List.length (qualifying docs)
             /\ y' = (yielded + Z.of_nat m)%Z /\ (y' < n)%Z
         | Stop _ => True
         end.
Proof.
  induction docs as [|doc rest IH]; intros yielded ys e Hy.
  - simpl. intros [= <- <-]. exists 0. simpl.
    repeat split; try lia.
  - rewrite qualifying_cons. simpl scan_page.
    destruct (abstract_inverted_index doc) as [a|] eqn:Ha; [|now apply IH].
    assert (Hyield : forall lemmas,
      process_texts self (display_name doc) a = Ok lemmas ->
      yield_of self doc
      = Some {| data := lemmas; subjects := concept_scores (concepts doc) |}).
    { intros lemmas Hp. unfold yield_of. now rewrite Ha, Hp. }
    destruct (process_texts self (display_name doc) a) as [lemmas|err].
    + specialize (Hyield lemmas eq_refl).
      destruct (Z.eqb_spec (yielded + 1) n) as [E|E].
      * intros [= <- <-]. exists 1. simpl. rewrite Hyield.
        repeat split; simpl; lia.
      * destruct (scan_page self n (yielded + 1) rest) as [ys' e'] eqn:Hscan.
        intros [= <- <-].
        destruct (IH (yielded + 1)%Z ys' e' ltac:(lia) Hscan)
          as (m & Hm & Hys & Hb & He).
        exists (S m). simpl. rewrite Hyield, Hys.
        repeat split; try lia.
        destruct e' as [y'|o]; [|exact I].
        destruct He as (-> & -> & Hlt). repeat split; lia.
    + intros [= <- <-]. exists 0. simpl. repeat split; lia.
Qed.

(** The same for the loop over the pages. *)
Lemma get_docs_from_prefix (fuel : nat) :
  forall (yielded page : Z) (ys : list processed) (o : outcome),
    get_docs_from self req_get url n fuel yielded page = (ys, o) ->
    exists k m,
      map Some ys
      = map (yield_of self) (firstn m (qualifying_pages req_get url page k))
      /\ (Z.of_nat (List.length ys) <= Z.max 0 (n - yielded))%Z.
Proof.
  induction fuel as [|fuel IH]; intros yielded page ys o; simpl.
  - intros [= <- <-]. exists 0, 0. simpl. split; [reflexivity | lia].
  - destruct (Z.ltb_spec yielded n) as [Hy|Hy];
      [|intros [= <- <-]; exists 0, 0; simpl; split; [reflexivity | lia]].
    destruct (req_get url page) as [|docs] eqn:Hpage;
      [intros [= <- <-]; exists 0, 0; simpl; split; [reflexivity | lia]|].
    destruct (scan_page self n yielded docs) as [ys1 e] eqn:Hscan.
    destruct (scan_page_prefix docs yielded ys1 e Hy Hscan)
      as (m1 & Hm1 & Hys1 & Hb & He).
    assert (Hlen1 : List.length ys1 = m1).
    { apply (f_equal (@List.length _)) in Hys1.
      rewrite !length_map, length_firstn in Hys1. lia. }
    destruct e as [y'|o'].
    + destruct He as (-> & -> & Hlt).
      destruct (get_docs_from self req_get url n fuel
                  (yielded + Z.of_nat (List.length (qualifying docs)))
                  (page + 1)) as [zs o'] eqn:Hrest.
      intros [= <- <-].
      destruct (IH _ _ _ _ Hrest) as (k & m & Hzs & Hbz).
      exists (S k), (List.length (qualifying docs) + m).
      rewrite qualifying_pages_app, Hpage. simpl page_docs.
      rewrite firstn_app_2, !map_app, Hzs.
      rewrite firstn_all in Hys1. rewrite Hys1.
      split; [reflexivity|]. rewrite length_app. lia.
    + intros [= <- <-]. exists 1, m1. simpl. rewrite Hpage. simpl page_docs.
      rewrite app_nil_r. split; [exact Hys1 | lia].
Qed.

End FetcherInvariants.

(** X1. [get_docs] never yields more than [n] documents, whatever the pages
    hold and however it ends; for [n <= 0] it returns at once, with nothing
    yielded and no page requested. *)
Theorem get_docs_at_most_n (self : DocRetriever)
    (req_get : string -> Z -> response) (fuel : nat) (url : string) (n : Z) :
  (Z.of_nat (List.length (fst (get_docs self req_get fuel url n)))
   <= Z.max 0 n)%Z
  /\ ((n <= 0)%Z -> get_docs self req_get (S fuel) url n = ([], Finished)).
Proof.
  split.
  - unfold get_docs.
    destruct (get_docs_from self req_get (url ++ page_query) n fuel 0 1)
      as [ys o] eqn:H.
    destruct (get_docs_from_prefix self req_get _ n fuel 0%Z 1%Z ys o H)
      as (k & m & _ & Hb).
    simpl. lia.
  - intros Hn. unfold get_docs. simpl.
    destruct (Z.ltb_spec 0 n); [lia | reflexivity].
Qed.

(** X2. What [get_docs] has yielded, however it ends, are the first so many
    qualifying documents of the pages 1, 2, ... in their order, each as
    processed: no document with a null abstract is yielded, none is yielded
    twice or out of order, and no qualifying one is passed over. *)
Theorem get_docs_yields_in_page_order (self : DocRetriever)
    (req_get : string -> Z -> response) (fuel : nat) (url : string) (n : Z) :
  exists k m,
    map Some (fst (get_docs self req_get fuel url n))
    = map (yield_of self)
        (firstn m (qualifying_pages req_get (url ++ page_query)%string 1%Z k)).
Proof.
  unfold get_docs.
  destruct (get_docs_from self req_get (url ++ page_query) n fuel 0 1)
    as [ys o] eqn:H.
  destruct (get_docs_from_prefix self req_get _ n fuel 0%Z 1%Z ys o H)
    as (k & m & Hys & _).
  exists k, m. exact Hys.
Qed.

(** ** What a run reads and what it writes *)


(** X3. A run reads the upstream only at the URLs of the subjects that are
    not done: two upstreams that agree on the pages of those URLs give the
    same run, whatever they answer for the subjects that are done. *)
Theorem main_reads_pending_subjects_only (self : DocRetriever)
    (r1 r2 : string -> Z -> response) (docs_dir : list (string * batch_t))
    (subjects : dict subject_data) (fuel : nat) (n_docs n_file : Z) :
  (forall s sd page,
     In (s, sd) subjects ->
     is_done (get_done_subjects docs_dir) s = false ->
     r1 (works_api_url sd ++ page_query)%string page
     = r2 (works_api_url sd ++ page_query)%string page) ->
  main self r1 docs_dir subjects fuel n_docs n_file
  = main self r2 docs_dir subjects fuel n_docs n_file.
Proof.
  intros H. unfold main.
  now rewrite (main_loop_ext self r1 r2 fuel n_docs n_file _ subjects H).
Qed.

Lemma main_reads_pending_subjects_only_witness :
  let docs_dir := [("1.json", [("A", [])])] in
  let subjects := [("A", {| works_api_url := "urlA" |});
                   ("B", {| works_api_url := "urlB" |})] in
  main (Sample.retriever ["graph"; "maps"]) Sample.six_seven docs_dir subjects
    5 50 2000
  = main (Sample.retriever ["graph"; "maps"]) (Sample.short_collection 7)
      docs_dir subjects 5 50 2000.
Proof.
  intros docs_dir subjects.
  apply (main_reads_pending_subjects_only (Sample.retriever ["graph"; "maps"])
           Sample.six_seven (Sample.short_collection 7) docs_dir subjects
           5 50 2000).
  intros s sd page [E|[E|[]]] Hd; injection E as <- <-.
  - discriminate Hd.
  - reflexivity.
Defined.

(** X4. When every subject of the input is done, the run writes no file and
    returns, whatever the upstream. *)
Theorem all_done_writes_nothing (self : DocRetriever)
    (req_get : string -> Z -> response) (docs_dir : list (string * batch_t))
    (subjects : dict subject_data) (fuel : nat) (n_docs n_file : Z) :
  (forall s, In s (keys subjects) ->
             is_done (get_done_subjects docs_dir) s = true) ->
  main self req_get docs_dir subjects fuel n_docs n_file = ([], Finished).
Proof.
  intros H. unfold main.
  assert (G : forall st,
    main_loop self req_get fuel n_docs n_file (get_done_subjects docs_dir)
      subjects st = (st, Finished)).
  { induction subjects as [|[s sd] rest IH]; intros st; simpl; [reflexivity|].
    rewrite (H s) by now left.
    apply IH. intros s' Hs'. apply H. now right. }
  rewrite G. reflexivity.
Qed.

Lemma all_done_writes_nothing_witness :
  main (Sample.retriever ["graph"; "maps"]) Sample.six_seven
    [("1.json", [("A", [])]); ("2.json", [("B", [])])]
    [("A", {| works_api_url := "urlA" |}); ("B", {| works_api_url := "urlB" |})]
    0 50 2000
  = ([], Finished).
Proof.
  apply all_done_writes_nothing.
  intros s [<-|[<-|[]]]; reflexivity.
Defined.

Section AssocFacts.
Context {V : Type}.

(** Two association lists with the same keys in the same order whose values
    are determined by the keys are equal. *)
Lemma assoc_determined (f : string -> V) (l1 l2 : list (string * V)) :
  map fst l1 = map fst l2 ->
  (forall k v, In (k, v) l1 -> v = f k) ->
  (forall k v, In (k, v) l2 -> v = f k) ->
  l1 = l2.
Proof.
  revert l2. induction l1 as [|[k v] l1 IH]; intros [|[k' v'] l2] E H1 H2;
    try discriminate; [reflexivity|].
  simpl in E. injection E as -> E.
  rewrite (H1 k' v) by now left. rewrite (H2 k' v') by now left.
  f_equal. apply IH; [exact E | |]; intros k0 v0 Hin.
  - apply H1. now right.
  - apply H2. now right.
Qed.

Lemma wf_set (d : dict V) (k : string) (v : V) : wf d -> wf (set k v d).
Proof.
  intros H. unfold wf in *.
  destruct (in_dec string_dec k (keys d)) as [Hin|Hin].
  - now rewrite keys_set_old.
  - rewrite set_new by assumption. unfold keys in *. rewrite map_app. simpl.
    apply NoDup_app; [exact H | repeat constructor; simpl; tauto |].
    intros a Ha [<-|[]]. contradiction.
Qed.

End AssocFacts.

Section RunWrites.
Variable self : DocRetriever.
Variable req_get : string -> Z -> response.
Variable docs_dir : list (string * batch_t).
Variable subjects : dict subject_data.
Variable fuel : nat.
Variables n_docs n_file : Z.
Hypothesis Hwf : wf subjects.

Local Notation "'done'" := (get_done_subjects docs_dir).

Lemma keys_flat_units (units : list (Z * batch_t)) :
  map fst (flat_map snd units) = unit_keys units.
Proof.
  induction units as [|u units IH]; simpl; [reflexivity|].
  now rewrite map_app, IH.
Qed.

Lemma pending_entries (l : dict subject_data) :
  pending done l
  = map fst (filter (fun e => negb (is_done done (fst e))) l).
Proof.
  unfold pending, keys. induction l as [|[s sd] l IH]; simpl; [reflexivity|].
  destruct (is_done done s); simpl; now rewrite IH.
Qed.

(** The files of a run: their numbers, their subjects, and what they hold
    for each subject. *)
Lemma main_files (units : list (Z * batch_t)) (o : outcome) :
  main self req_get docs_dir subjects fuel n_docs n_file = (units, o) ->
  map fst units = map Z.of_nat (seq 1 (List.length units))
  /\ (forall s, In s (unit_keys units) -> is_done done s = false)
  /\ Forall (fun u => whole_subjects self req_get fuel n_docs subjects (snd u))
       units
  /\ (o = Finished -> unit_keys units = pending done subjects).
Proof.
  intros Hmain.
  destruct (main_units self req_get docs_dir subjects fuel n_docs n_file Hwf
              _ _ Hmain) as (seen & rest & st & E & Hinv & Hunits & Hfin).
  destruct Hinv as (_ & Hkeys & _ & Hwd & Hwb & Hnr & Hfile).
  assert (Hall : unit_keys (dumped st ++ leftover st) = pending done seen)
    by now rewrite unit_keys_app, unit_keys_leftover.
  assert (Hnum : map fst (dumped st ++ leftover st)
                 = map Z.of_nat
                     (seq 1 (List.length (dumped st ++ leftover st)))).
  { unfold leftover. destruct (0 <? List.length (batch st)).
    - rewrite map_app, length_app, Hnr. cbn [map fst List.length].
      now rewrite Nat.add_1_r, seq_S, map_app, Hfile.
    - now rewrite app_nil_r. }
  assert (Hwhole : Forall
            (fun u => whole_subjects self req_get fuel n_docs subjects (snd u))
            (dumped st ++ leftover st)).
  { rewrite E. apply Forall_app. split.
    - revert Hwd. apply Forall_impl. intros u. apply whole_more.
    - unfold leftover. destruct (0 <? List.length (batch st));
        constructor; [|constructor]. now apply whole_more. }
  assert (Hsub : forall s, In s (unit_keys units) ->
                           In s (pending done seen)).
  { intros s Hs. rewrite <- Hall, unit_keys_app. rewrite Hunits in Hs.
    rewrite unit_keys_app in Hs. apply in_or_app.
    apply in_app_or in Hs as [Hs|Hs]; [now left | right].
    destruct o; [exact Hs | destruct Hs | destruct Hs]. }
  split; [|split; [|split]].
  - rewrite Hunits. destruct o; [exact Hnum | |]; now rewrite app_nil_r.
  - intros s Hs. apply Hsub in Hs. unfold pending in Hs.
    apply filter_In in Hs as [_ Hs].
    now destruct (is_done done s).
  - rewrite Hunits. destruct o; [exact Hwhole | |]; rewrite app_nil_r;
      now apply Forall_app in Hwhole.
  - intros ->. rewrite Hunits, Hall, E, (Hfin eq_refl). now rewrite app_nil_r.
Qed.

End RunWrites.

(** X5. With no subject twice in the input, the files of a run that goes
    through hold, taken together and in the order of the input, one entry
    for each subject that is not done, with all that [get_docs] yielded for
    it, and each of those generators has returned: no document yielded is
    lost, none is written twice. *)
Theorem finished_run_persists_pending_yields (self : DocRetriever)
    (req_get : string -> Z -> response) (docs_dir : list (string * batch_t))
    (subjects : dict subject_data) (fuel : nat) (n_docs n_file : Z)
    (units : list (Z * batch_t)) :
  wf subjects ->
  main self req_get docs_dir subjects fuel n_docs n_file = (units, Finished) ->
  flat_map snd units
  = pending_yields self req_get fuel n_docs (get_done_subjects docs_dir)
      subjects
  /\ Forall
       (fun e => snd (get_docs self req_get fuel (works_api_url (snd e)) n_docs)
                 = Finished)
       (filter (fun e => negb (is_done (get_done_subjects docs_dir) (fst e)))
          subjects).
Proof.
  intros Hwf Hmain.
  destruct (main_files self req_get docs_dir subjects fuel n_docs n_file Hwf
              units Finished Hmain) as (_ & _ & Hwhole & Hkeys).
  specialize (Hkeys eq_refl).
  assert (Hentry : forall s docs,
            In (s, docs) (flat_map snd units) ->
            exists sd, get s subjects = Some sd
                       /\ get_docs self req_get fuel (works_api_url sd) n_docs
                          = (docs, Finished)).
  { intros s docs Hin. apply in_flat_map in Hin as (u & Hu & Hin).
    rewrite Forall_forall in Hwhole.
    destruct (Hwhole u Hu s docs Hin) as (sd & Hsd & Hget).
    exists sd. split; [now apply get_In | exact Hget]. }
  split.
  - apply (assoc_determined
             (fun s => match get s subjects with
                       | Some sd =>
                           fst (get_docs self req_get fuel (works_api_url sd)
                                  n_docs)
                       | None => []
                       end)).
    + rewrite keys_flat_units, Hkeys, pending_entries.
      unfold pending_yields. rewrite map_map. reflexivity.
    + intros s docs Hin. destruct (Hentry s docs Hin) as (sd & -> & ->).
      reflexivity.
    + intros s docs Hin. unfold pending_yields in Hin.
      apply in_map_iff in Hin as ([s' sd] & [= <- <-] & Hin).
      apply filter_In in Hin as [Hin _]. simpl.
      now rewrite (get_In subjects s' sd Hwf Hin).
  - apply Forall_forall. intros [s sd] Hin.
    assert (Hs : In s (unit_keys units)).
    { rewrite Hkeys, pending_entries. change s with (fst (s, sd)).
      now apply in_map. }
    rewrite <- keys_flat_units in Hs.
    apply in_map_iff in Hs as ([s' docs] & Es & Hs). simpl in Es. subst s'.
    destruct (Hentry s docs Hs) as (sd' & Hget & Hdocs).
    apply filter_In in Hin as [Hin _].
    rewrite (get_In subjects s sd Hwf Hin) in Hget. injection Hget as <-.
    simpl. now rewrite Hdocs.
Qed.

Lemma finished_run_persists_pending_yields_witness :
  let subjects := [("A", {| works_api_url := "urlA" |});
                   ("B", {| works_api_url := "urlB" |});
                   ("C", {| works_api_url := "urlC" |})] in
  let units := fst (main (Sample.retriever ["graph"; "maps"])
                      Sample.six_seven [("1.json", [("B", [])])] subjects
                      5 50 10) in
  map (fun e => (fst e, List.length (snd e))) (flat_map snd units)
  = [("A", 6); ("C", 7)].
Proof.
  intros subjects units.
  destruct (finished_run_persists_pending_yields
              (Sample.retriever ["graph"; "maps"]) Sample.six_seven
              [("1.json", [("B", [])])] subjects 5 50 10 units) as [H _].
  - unfold wf, subjects. simpl.
    repeat constructor; simpl; intuition discriminate.
  - vm_compute. reflexivity.
  - rewrite H. vm_compute. reflexivity.
Defined.

(** ** The directory after a run *)

Section DirectoryFacts.

Lemma to_int_printable (z : Z) :
  Z.to_int z <> Decimal.Pos Decimal.Nil
  /\ Z.to_int z <> Decimal.Neg Decimal.Nil.
Proof.
  destruct z as [|p|p]; simpl; split; try discriminate;
    intros [= H]; now apply (Unsigned.to_uint_nonnil p).
Qed.

(** Different numbers give different file names. *)
Lemma file_name_inj (a b : Z) : file_name a = file_name b -> a = b.
Proof.
  unfold file_name. intros H. apply append_cancel_r in H.
  apply (f_equal NilZero.int_of_string) in H.
  destruct (to_int_printable a) as [Ha1 Ha2].
  destruct (to_int_printable b) as [Hb1 Hb2].
  rewrite !NilZero.isi in H by assumption.
  injection H as H. now apply DecimalZ.to_int_inj.
Qed.

Lemma docs_dir_after_snoc (dir : dict batch_t) (units : list (Z * batch_t))
    (u : Z * batch_t) :
  docs_dir_after dir (units ++ [u]) = write_unit (docs_dir_after dir units) u.
Proof. unfold docs_dir_after. now rewrite fold_left_app. Qed.

Lemma wf_docs_dir_after (dir : dict batch_t) (units : list (Z * batch_t)) :
  wf dir -> wf (docs_dir_after dir units).
Proof.
  induction units as [|u units IH] using rev_ind; intros H; [exact H|].
  rewrite docs_dir_after_snoc. apply wf_set. now apply IH.
Qed.

(** A file of the directory after the run was written by the run, or was
    there before and has a name under which the run did not write. *)
Lemma get_after_cases (dir : dict batch_t) (units : list (Z * batch_t))
    (name : string) (b : batch_t) :
  get name (docs_dir_after dir units) = Some b ->
  (exists nr, In (nr, b) units /\ file_name nr = name)
  \/ (get name dir = Some b
      /\ forall u, In u units -> file_name (fst u) <> name).
Proof.
  induction units as [|[nr c] units IH] using rev_ind.
  - intros H. right. split; [exact H | intros u []].
  - rewrite docs_dir_after_snoc. unfold write_unit. cbn [fst snd].
    destruct (string_dec (file_name nr) name) as [<-|N].
    + rewrite get_set_same. intros [= <-]. left. exists nr.
      split; [apply in_or_app; right; now left | reflexivity].
    + rewrite get_set_other by congruence. intros H.
      destruct (IH H) as [(nr' & Hin & E)|[Hg Hn]].
      * left. exists nr'. split; [apply in_or_app; now left | exact E].
      * right. split; [exact Hg|].
        intros u Hu. apply in_app_or in Hu as [Hu|[<-|[]]]; [now apply Hn|].
        exact N.
Qed.

(** A file the run wrote under a name it used once holds what was written. *)
Lemma get_after_written (dir : dict batch_t) (units : list (Z * batch_t))
    (nr : Z) (b : batch_t) :
  NoDup (map fst units) -> In (nr, b) units ->
  get (file_name nr) (docs_dir_after dir units) = Some b.
Proof.
  induction units as [|[nr' c] units IH] using rev_ind; [intros _ []|].
  rewrite map_app. cbn [map fst]. intros Hnd Hin.
  rewrite docs_dir_after_snoc. unfold write_unit. cbn [fst snd].
  apply in_app_or in Hin as [Hin|[[= <- <-]|[]]].
  - rewrite get_set_other.
    + apply IH; [now apply NoDup_app_remove_r in Hnd | exact Hin].
    + intros E. apply file_name_inj in E. subst nr'.
      apply (NoDup_app_disjoint _ _ Hnd nr); [|now left].
      change nr with (fst (nr, b)). now apply in_map.
  - apply get_set_same.
Qed.

End DirectoryFacts.

(** X6. A run numbers its files from 1, whatever the directory holds.  So
    when a run writes a file, the file ['1.json'] afterwards holds the first
    unit of this run, and a subject that was done only by the ['1.json'] of
    an earlier run is no longer done for the next run. *)
Theorem resumed_run_replaces_first_file (self : DocRetriever)
    (req_get : string -> Z -> response) (docs_dir : list (string * batch_t))
    (subjects : dict subject_data) (fuel : nat) (n_docs n_file : Z)
    (u : Z * batch_t) (rest : list (Z * batch_t)) (o : outcome) :
  wf subjects ->
  wf docs_dir ->
  main self req_get docs_dir subjects fuel n_docs n_file = (u :: rest, o) ->
  get "1.json" (docs_dir_after docs_dir (u :: rest)) = Some (snd u)
  /\ forall s,
       is_done (get_done_subjects docs_dir) s = true ->
       (forall name b, In (name, b) docs_dir -> In s (keys b) ->
                       name = "1.json"%string) ->
       is_done (get_done_subjects (docs_dir_after docs_dir (u :: rest))) s
       = false.
Proof.
  intros Hwf Hdir Hmain.
  destruct (main_files self req_get docs_dir subjects fuel n_docs n_file Hwf
              _ _ Hmain) as (Hnum & Hpend & _ & _).
  assert (Hfirst : fst u = 1%Z) by (simpl in Hnum; now injection Hnum).
  assert (Hnd : NoDup (map fst (u :: rest))).
  { rewrite Hnum. apply NoDup_map_NoDup_ForallPairs; [|apply seq_NoDup].
    intros x y _ _. apply Nat2Z.inj. }
  split.
  - change "1.json"%string with (file_name 1). rewrite <- Hfirst.
    apply get_after_written; [exact Hnd | left; now destruct u].
  - intros s Hdone Honly.
    destruct (is_done (get_done_subjects (docs_dir_after docs_dir (u :: rest)))
                s) eqn:Hafter; [|reflexivity].
    exfalso. apply is_done_spec in Hafter as ([name b] & Hin & Hs).
    simpl in Hs.
    apply (get_In _ _ _ (wf_docs_dir_after _ _ Hdir)) in Hin.
    apply get_after_cases in Hin as [(nr & Hin & _)|[Hold Hfree]].
    + assert (Hk : In s (unit_keys (u :: rest))).
      { unfold unit_keys. apply in_flat_map. exists (nr, b). now split. }
      apply Hpend in Hk. congruence.
    + apply get_Some_In in Hold.
      apply (Hfree u (or_introl eq_refl)).
      rewrite Hfirst. symmetry. exact (Honly name b Hold Hs).
Qed.

Lemma resumed_run_replaces_first_file_witness :
  let docs_dir := [("1.json", [("X", [])])] in
  let subjects := [("X", {| works_api_url := "urlX" |});
                   ("Z", {| works_api_url := "urlZ" |})] in
  let units := fst (main (Sample.retriever ["graph"; "maps"])
                      (Sample.short_collection 2) docs_dir subjects 5 50 2000) in
  is_done (get_done_subjects docs_dir) "X" = true
  /\ keys (docs_dir_after docs_dir units) = ["1.json"]
  /\ is_done (get_done_subjects (docs_dir_after docs_dir units)) "X" = false.
Proof.
  intros docs_dir subjects units.
  split; [reflexivity | split; [vm_compute; reflexivity|]].
  destruct units as [|u rest] eqn:E; [discriminate E|].
  destruct (resumed_run_replaces_first_file
              (Sample.retriever ["graph"; "maps"]) (Sample.short_collection 2)
              docs_dir subjects 5 50 2000 u rest Finished) as [_ H].
  - unfold wf, subjects. simpl.
    repeat constructor; simpl; intuition discriminate.
  - unfold wf, docs_dir. simpl. repeat constructor; simpl; tauto.
  - rewrite <- E. vm_compute. reflexivity.
  - apply H; [reflexivity|].
    intros name b [[= <- <-]|[]] _. reflexivity.
Defined.

(** ** The subjects of a document *)

(** X7. The scores [get_docs] attaches to a document have each concept id
    once, and where the document lists an id several times the score is
    that of its last listing. *)
Theorem concept_scores_last_wins (cs : list concept) :
  wf (concept_scores cs)
  /\ (forall k, In k (keys (concept_scores cs)) <-> In k (map id cs))
  /\ forall k,
       get k (concept_scores cs)
       = option_map score (find (fun c => String.eqb (id c) k) (rev cs)).
Proof.
  unfold concept_scores.
  induction cs as [|c cs (Hwf & Hkeys & Hget)] using rev_ind.
  - simpl. repeat split; try tauto. constructor.
  - rewrite fold_left_app. simpl fold_left.
    set (d := fold_left (fun d s => set (id s) (score s) d) cs []) in *.
    split; [now apply wf_set | split].
    + intros k. rewrite map_app, in_app_iff. simpl.
      destruct (in_dec string_dec (id c) (keys d)) as [Hin|Hin].
      * rewrite keys_set_old by exact Hin. rewrite Hkeys. split; [tauto|].
        intros [H|[<-|[]]]; [exact H | now apply Hkeys].
      * rewrite set_new by exact Hin. unfold keys at 1. rewrite map_app.
        simpl. rewrite in_app_iff. fold (keys d). rewrite Hkeys. simpl. tauto.
    + intros k. rewrite rev_app_distr. simpl.
      destruct (String.eqb_spec (id c) k) as [<-|N].
      * now rewrite get_set_same.
      * rewrite get_set_other by congruence. apply Hget.
Qed.

(** ** Ranking and filtering *)

Section RankUnique.
Variable vocab : list string.

Lemma occurrences_filter (p : string -> bool) (l : list string) (w : string) :
  p w = true -> occurrences (filter p l) w = occurrences l w.
Proof.
  intros Hw. unfold occurrences.
  induction l as [|x l IH]; simpl; [reflexivity|].
  destruct (p x) eqn:Hx; simpl.
  - destruct (string_dec x w); now rewrite IH.
  - destruct (string_dec x w) as [->|N]; [congruence | exact IH].
Qed.

(** Filtering keeps the order in which kept words first occur. *)
Lemma index_of_filter (p : string -> bool) (l : list string) (u v : string) :
  p u = true -> p v = true -> In u l -> In v l ->
  index_of u (filter p l) < index_of v (filter p l) ->
  index_of u l < index_of v l.
Proof.
  intros Hu Hv. induction l as [|x l IH]; simpl; [tauto|].
  intros Hinu Hinv.
  destruct (p x) eqn:Hx; simpl.
  - destruct (String.eqb_spec x u) as [Eu|Nu];
      destruct (String.eqb_spec x v) as [Ev|Nv]; try lia.
    intros H. apply -> Nat.succ_lt_mono.
    apply IH; [tauto | tauto | lia].
  - destruct (String.eqb_spec x u) as [Eu|Nu]; [congruence|].
    destruct (String.eqb_spec x v) as [Ev|Nv]; [congruence|].
    intros H. apply -> Nat.succ_lt_mono.
    apply IH; [tauto | tauto | exact H].
Qed.

(** Two duplicate-free lists with the same members, both in the order of a
    relation that never holds both ways, are equal. *)
Lemma sorted_unique (R : string -> string -> Prop) (l1 l2 : list string) :
  (forall a b, R a b -> R b a -> False) ->
  StronglySorted R l1 -> StronglySorted R l2 ->
  NoDup l1 -> NoDup l2 ->
  (forall x, In x l1 <-> In x l2) ->
  l1 = l2.
Proof.
  intros Hasym. revert l2.
  induction l1 as [|a t1 IH]; intros [|b t2] S1 S2 N1 N2 Hmem.
  - reflexivity.
  - exfalso. apply (Hmem b). now left.
  - exfalso. apply (Hmem a). now left.
  - apply StronglySorted_inv in S1 as [S1 F1].
    apply StronglySorted_inv in S2 as [S2 F2].
    rewrite Forall_forall in F1, F2.
    inversion N1 as [|? ? Ha N1']; inversion N2 as [|? ? Hb N2']; subst.
    assert (E : a = b).
    { destruct (string_dec a b) as [E|N]; [exact E | exfalso].
      assert (Hab : In a t2).
      { destruct (proj1 (Hmem a) (or_introl eq_refl)) as [E|H];
          [congruence | exact H]. }
      assert (Hba : In b t1).
      { destruct (proj2 (Hmem b) (or_introl eq_refl)) as [E|H];
          [congruence | exact H]. }
      exact (Hasym a b (F1 b Hba) (F2 a Hab)). }
    subst b. f_equal. apply IH; try assumption.
    intros x. split; intros Hx.
    + destruct (proj1 (Hmem x) (or_intror Hx)) as [E|H]; [|exact H].
      subst x. contradiction.
    + destruct (proj2 (Hmem x) (or_intror Hx)) as [E|H]; [|exact H].
      subst x. contradiction.
Qed.

End RankUnique.

(** X8. The lemmas that are not in the vocabulary have no influence on the
    ranking: ranking the lemmas gives what ranking only the in-vocabulary
    ones among them gives. *)
Theorem rank_ignores_out_of_vocabulary (voc lemmas : list string) :
  rank voc lemmas = rank voc (filter (in_vocab voc) lemmas).
Proof.
  apply (sorted_unique (ranked_before lemmas)).
  - unfold ranked_before. intros a b. lia.
  - apply rank_sorted.
  - generalize (rank_sorted voc (filter (in_vocab voc) lemmas)).
    apply StronglySorted_members. intros a b Ha Hb.
    apply rank_members in Ha as [Ha Hva]. apply rank_members in Hb as [Hb Hvb].
    apply filter_In in Ha as [Ha _]. apply filter_In in Hb as [Hb _].
    unfold ranked_before. rewrite !occurrences_filter by assumption.
    intros [H|[H1 H2]]; [now left | right].
    split; [exact H1 | now apply (index_of_filter (in_vocab voc))].
  - apply rank_NoDup.
  - apply rank_NoDup.
  - intros x. rewrite !rank_members, filter_In. tauto.
Qed.

(** ** Reconstruction of an arbitrary index *)

(** X9. Whatever the position lists hold, a word is in the reconstructed
    abstract exactly when it is a key of the index and one of the positions
    [0 .. n_words-1] is in its list; the text is those words, each followed
    by one space.  Positions that are negative or beyond the number of
    listed positions are passed over in silence. *)
Theorem out_of_range_positions_are_dropped (abstract_idx : dict (list Z)) :
  build_abstract abstract_idx = spaced (abstract_words abstract_idx)
  /\ forall w,
       In w (abstract_words abstract_idx)
       <-> In w (keys abstract_idx)
           /\ exists i, i < n_words abstract_idx
                        /\ In (Z.of_nat i) (positions w abstract_idx).
Proof.
  split; [apply build_abstract_spaced|].
  intros w. unfold abstract_words, words_at. rewrite in_flat_map. split.
  - intros (i & Hi & Hw). apply in_seq in Hi. apply filter_In in Hw as [Hk Hp].
    split; [exact Hk|]. exists i. split; [lia | now apply pos_in_In].
  - intros (Hk & i & Hi & Hp). exists i. split; [apply in_seq; lia|].
    apply filter_In. split; [exact Hk | now apply pos_in_In].
Qed.

(** ** The size of the files *)


(** X10. With a positive threshold, no file of a run holds [n_file] records
    or more before its last subject is added: every file has fewer than
    [n_file + max 0 n_docs] records. *)
Theorem file_size_upper_bound (self : DocRetriever)
    (req_get : string -> Z -> response) (docs_dir : list (string * batch_t))
    (subjects : dict subject_data) (fuel : nat) (n_docs n_file : Z) :
  wf subjects ->
  (0 < n_file)%Z ->
  Forall (fun u => (n_records (snd u) < n_file + Z.max 0 n_docs)%Z)
    (fst (main self req_get docs_dir subjects fuel n_docs n_file)).
Proof.
  intros Hwf Hpos. unfold main.
  destruct (main_loop self req_get fuel n_docs n_file
              (get_done_subjects docs_dir) subjects start) as [st o] eqn:Hloop.
  destruct (main_loop_keeps self req_get fuel n_docs n_file
              (get_done_subjects docs_dir)
              (fun c => (c < n_file)%Z)
              (Forall (fun u => (n_records (snd u) < n_file + Z.max 0 n_docs)%Z))
              subjects) with (rest := subjects) (seen := @nil (string * subject_data))
              (st := start) (st' := st) (o := o) as [HQ HC].
  - intros st0 s sd docs _ _ Hget Hcnt Hc HQ. cbv zeta.
    assert (Hlen : (Z.of_nat (List.length docs) <= Z.max 0 n_docs)%Z).
    { unfold get_docs in Hget.
      destruct (get_docs_from_prefix self req_get _ n_docs fuel 0%Z 1%Z docs
                  Finished Hget) as (k & m & _ & Hb). lia. }
    destruct (Z.geb_spec (cnt st0 + Z.of_nat (List.length docs)) n_file).
    + split; [exact Hpos|]. apply Forall_app. split; [exact HQ|].
      constructor; [|constructor]. cbn [snd]. rewrite n_records_app. lia.
    + lia.
  - apply incl_refl.
  - apply inv_start.
  - exact Hwf.
  - exact Hpos.
  - constructor.
  - exact Hloop.
  - destruct o; cbn [fst]; try exact HQ.
    apply Forall_app. split; [exact HQ|].
    destruct (HC eq_refl) as [Hlt Hcnt]. unfold leftover.
    destruct (0 <? List.length (batch st)); constructor; [|constructor].
    cbn [snd]. lia.
Qed.

Lemma file_size_upper_bound_witness :
  Forall (fun u => (n_records (snd u) < 10 + 50)%Z)
    (fst (main (Sample.retriever ["graph"; "maps"]) Sample.six_seven []
            [("A", {| works_api_url := "urlA" |});
             ("B", {| works_api_url := "urlB" |})] 5 50 10)).
Proof.
  apply (file_size_upper_bound (Sample.retriever ["graph"; "maps"])
           Sample.six_seven []
           [("A", {| works_api_url := "urlA" |});
            ("B", {| works_api_url := "urlB" |})] 5 50 10).
  - unfold wf. simpl. repeat constructor; simpl; intuition discriminate.
  - lia.
Defined.

(** X11. The case the docstring of [main] has in mind: when [n_docs]
    divides [n_file] and the generator of every subject that is not done
    yields [n_docs] documents, every file written inside the loop holds
    [n_file] records, and the leftover file, if any, holds fewer. *)
Theorem files_hold_exactly_n_file (self : DocRetriever)
    (req_get : string -> Z -> response) (docs_dir : list (string * batch_t))
    (subjects : dict subject_data) (fuel : nat) (n_docs n_file : Z)
    (st : run_state) (o : outcome) :
  wf subjects ->
  (0 < n_docs)%Z ->
  (0 < n_file)%Z ->
  (n_docs | n_file)%Z ->
  (forall s sd docs,
     In (s, sd) subjects ->
     is_done (get_done_subjects docs_dir) s = false ->
     get_docs self req_get fuel (works_api_url sd) n_docs = (docs, Finished) ->
     Z.of_nat (List.length docs) = n_docs) ->
  main_loop self req_get fuel n_docs n_file (get_done_subjects docs_dir)
    subjects start = (st, o) ->
  Forall (fun u => n_records (snd u) = n_file) (dumped st)
  /\ (o = Finished ->
      Forall (fun u => (n_records (snd u) < n_file)%Z) (leftover st)).
Proof.
  intros Hwf Hdocs Hfile Hdiv Hfull Hloop.
  destruct (main_loop_keeps self req_get fuel n_docs n_file
              (get_done_subjects docs_dir)
              (fun c => (n_docs | c)%Z /\ (0 <= c < n_file)%Z)
              (Forall (fun u => n_records (snd u) = n_file))
              subjects) with (rest := subjects) (seen := @nil (string * subject_data))
              (st := start) (st' := st) (o := o) as [HQ HC].
  - intros st0 s sd docs Hin Hd Hget Hcnt [Hmul Hrange] HQ. cbv zeta.
    rewrite (Hfull s sd docs Hin Hd Hget).
    assert (Hle : (cnt st0 + n_docs <= n_file)%Z).
    { destruct Hmul as [k Hk]. destruct Hdiv as [m Hm].
      assert (Hkm : (k < m)%Z) by nia.
      assert (Hs : ((k + 1) * n_docs <= m * n_docs)%Z)
        by (apply Z.mul_le_mono_nonneg_r; lia).
      lia. }
    destruct (Z.geb_spec (cnt st0 + n_docs) n_file).
    + split; [split; [apply Z.divide_0_r | lia]|].
      apply Forall_app. split; [exact HQ|].
      constructor; [|constructor]. cbn [snd]. rewrite n_records_app.
      rewrite (Hfull s sd docs Hin Hd Hget). lia.
    + split; [|lia]. apply Z.divide_add_r; [exact Hmul | apply Z.divide_refl].
  - apply incl_refl.
  - apply inv_start.
  - exact Hwf.
  - split; [apply Z.divide_0_r | simpl; lia].
  - constructor.
  - exact Hloop.
  - split; [exact HQ|]. intros Ho.
    destruct (HC Ho) as [[_ Hrange] Hcnt]. unfold leftover.
    destruct (0 <? List.length (batch st)); constructor; [|constructor].
    cbn [snd]. lia.
Qed.

Lemma files_hold_exactly_n_file_witness :
  let subjects := [("A", {| works_api_url := "urlA" |});
                   ("B", {| works_api_url := "urlB" |});
                   ("C", {| works_api_url := "urlC" |})] in
  unit_sizes
    (fst (main (Sample.retriever ["graph"; "maps"]) (Sample.short_collection 2)
            [] subjects 5 2 4))
  = [(1%Z, [("A", 2); ("B", 2)]); (2%Z, [("C", 2)])]
  /\ Forall (fun u => n_records (snd u) = 4%Z)
       (dumped (fst (main_loop (Sample.retriever ["graph"; "maps"])
                       (Sample.short_collection 2) 5 2 4
                       (get_done_subjects []) subjects start))).
Proof.
  intros subjects. split; [vm_compute; reflexivity|].
  apply (files_hold_exactly_n_file (Sample.retriever ["graph"; "maps"])
           (Sample.short_collection 2) [] subjects 5 2 4 _ Finished).
  - unfold wf, subjects. simpl.
    repeat constructor; simpl; intuition discriminate.
  - lia.
  - lia.
  - exists 2%Z. reflexivity.
  - intros s sd docs [E|[E|[E|[]]]] _ Hget; injection E as <- <-;
      vm_compute in Hget; injection Hget as <-; reflexivity.
  - vm_compute. reflexivity.
Defined.

(** * Properties of [get_articles.py] *)

(** ** Deleting *)

Section Deleting.

Lemma subsequence_refl (s : string) : subsequence s s.
Proof. induction s; now constructor. Qed.

Lemma subsequence_trans (u t s : string) :
  subsequence u t -> subsequence t s -> subsequence u s.
Proof.
  intros H1 H2. revert u H1.
  induction H2 as [|c t s H IH|c t s H IH]; intros u H1.
  - exact H1.
  - inversion H1 as [|c' u' t' H'|c' u' t' H']; subst.
    + constructor. now apply IH.
    + apply sub_leave. now apply IH.
  - apply sub_leave. now apply IH.
Qed.

Lemma subsequence_length (t s : string) :
  subsequence t s -> String.length t <= String.length s.
Proof. induction 1; simpl; lia. Qed.

Lemma subsequence_occurs (t s : string) (c : ascii) :
  subsequence t s -> occurs c t = true -> occurs c s = true.
Proof.
  induction 1 as [|x t s H IH|x t s H IH]; simpl; [easy | |].
  - destruct (Ascii.eqb x c); [reflexivity | exact IH].
  - intros Hc. rewrite (IH Hc). apply orb_true_r.
Qed.

Lemma sub_from_subsequence (pattern : string -> option nat) (s : string) :
  forall skip, subsequence (sub_from pattern skip s) s.
Proof.
  induction s as [|c r IH]; intros skip; simpl; [constructor|].
  destruct skip as [|k]; [|apply sub_leave, IH].
  destruct (pattern (String c r)) as [[|k]|];
    [apply sub_keep, IH | apply sub_leave, IH | apply sub_keep, IH].
Qed.

Lemma remove_newlines_subsequence (s : string) :
  subsequence (remove_newlines s) s.
Proof.
  induction s as [|c r IH]; simpl; [constructor|].
  destruct (Ascii.eqb c "010"); now constructor.
Qed.

Lemma remove_newlines_none (s : string) :
  occurs "010" (remove_newlines s) = false.
Proof.
  induction s as [|c r IH]; simpl; [reflexivity|].
  destruct (Ascii.eqb c "010") eqn:E; [exact IH|].
  simpl. now rewrite E.
Qed.

Lemma remove_newlines_plain (s : string) :
  occurs "010" s = false -> remove_newlines s = s.
Proof.
  induction s as [|c r IH]; simpl; [reflexivity|].
  destruct (Ascii.eqb c "010"); [discriminate|].
  simpl. intros H. now rewrite IH.
Qed.

Lemma match_many_at_bracket (cls : ascii -> bool) : at_bracket (match_many cls).
Proof. intros c r H. simpl. now rewrite H. Qed.

Lemma match_one_at_bracket (cls : ascii -> bool) : at_bracket (match_one cls).
Proof.
  intros c [|x [|c' r]] H; simpl; try reflexivity. now rewrite H.
Qed.

(** A stretch without an opening bracket is kept as it is. *)
Lemma sub_from_plain_prefix (pattern : string -> option nat) (a t : string) :
  at_bracket pattern ->
  occurs "[" a = false ->
  sub_from pattern 0 (a ++ t) = (a ++ sub_from pattern 0 t)%string.
Proof.
  intros Hp. induction a as [|c a IH]; simpl; [reflexivity|].
  destruct (Ascii.eqb c "[") eqn:E; [discriminate|].
  simpl. intros H. rewrite (Hp c (a ++ t)%string E). now rewrite IH.
Qed.

Lemma re_sub_plain (pattern : string -> option nat) (s : string) :
  at_bracket pattern -> occurs "[" s = false -> re_sub pattern s = s.
Proof.
  intros Hp H. unfold re_sub.
  rewrite <- (append_empty_r s) at 1.
  rewrite (sub_from_plain_prefix pattern s "" Hp H). simpl.
  apply append_empty_r.
Qed.

(** The characters of a match are left out. *)
Lemma sub_from_skip (pattern : string -> option nat) (r t : string) :
  sub_from pattern (String.length r) (r ++ t) = sub_from pattern 0 t.
Proof.
  induction r as [|c r IH]; simpl; [reflexivity | exact IH].
Qed.

Lemma sub_from_match (pattern : string -> option nat) (c : ascii)
    (r t : string) :
  pattern (String c (r ++ t)) = Some (S (String.length r)) ->
  sub_from pattern 0 (String c (r ++ t)) = sub_from pattern 0 t.
Proof.
  intros H. simpl sub_from. rewrite H. apply sub_from_skip.
Qed.

End Deleting.

(** X12. [prettify] only deletes: what it returns is the text with some
    characters left out, so it is no longer than the text, and it has no
    newline. *)
Theorem prettify_only_deletes (text : string) :
  subsequence (prettify text) text
  /\ occurs "010" (prettify text) = false
  /\ String.length (prettify text) <= String.length text.
Proof.
  assert (H : subsequence (prettify text) (remove_newlines text)).
  { unfold prettify, re_sub.
    eapply subsequence_trans; [apply sub_from_subsequence|].
    eapply subsequence_trans; apply sub_from_subsequence. }
  assert (H' : subsequence (prettify text) text)
    by (eapply subsequence_trans; [exact H | apply remove_newlines_subsequence]).
  split; [exact H' | split; [|now apply subsequence_length]].
  destruct (occurs "010" (prettify text)) eqn:E; [|reflexivity].
  apply (subsequence_occurs _ _ _ H) in E.
  now rewrite remove_newlines_none in E.
Qed.

(** X13. A text with neither a newline nor an opening bracket is returned
    as it is. *)
Theorem prettify_plain (text : string) :
  plain text = true -> prettify text = text.
Proof.
  unfold plain. intros H. apply andb_prop in H as [Hn Hb].
  apply negb_true_iff in Hn, Hb.
  unfold prettify. rewrite (remove_newlines_plain text Hn).
  rewrite (re_sub_plain (match_many is_digit)); [|apply match_many_at_bracket | exact Hb].
  rewrite (re_sub_plain (match_one is_lower)); [|apply match_one_at_bracket | exact Hb].
  apply re_sub_plain; [apply match_many_at_bracket | exact Hb].
Qed.

Lemma prettify_plain_witness :
  prettify "Paris is the capital of France (2.1 million inhabitants]."
  = "Paris is the capital of France (2.1 million inhabitants]."%string.
Proof.
  apply prettify_plain. reflexivity.
Defined.

(** ** References *)

Section References.

Lemma occurs_app (c : ascii) (a b : string) :
  occurs c (a ++ b) = occurs c a || occurs c b.
Proof.
  induction a as [|x a IH]; simpl; [reflexivity|].
  rewrite IH. apply orb_assoc.
Qed.

(** A string of a class has no character outside the class. *)
Lemma all_in_occurs (cls : ascii -> bool) (c : ascii) (ds : string) :
  cls c = false -> all_in cls ds = true -> occurs c ds = false.
Proof.
  intros Hc. induction ds as [|x ds IH]; simpl; [reflexivity|].
  intros H. apply andb_prop in H as [Hx Hds].
  destruct (Ascii.eqb_spec x c) as [->|N]; [congruence|]. now apply IH.
Qed.

Lemma run_all (cls : ascii -> bool) (ds : string) (x : ascii) (t : string) :
  all_in cls ds = true -> cls x = false ->
  run cls (ds ++ String x t) = String.length ds.
Proof.
  intros Hds Hx. induction ds as [|c ds IH]; simpl in *.
  - now rewrite Hx.
  - apply andb_prop in Hds as [Hc Hds]. rewrite Hc. f_equal. now apply IH.
Qed.

Lemma drop_app (ds t : string) : drop (String.length ds) (ds ++ t) = t.
Proof.
  induction ds as [|c ds IH]; simpl; [now destruct t | exact IH].
Qed.

(** The pattern [\[X+\]] matches a bracketed, non-empty string of [X]. *)
Lemma match_many_reference (cls : ascii -> bool) (ds b : string) :
  ds <> EmptyString -> all_in cls ds = true -> cls "]"%char = false ->
  match_many cls (String "[" ((ds ++ "]") ++ b))
  = Some (S (String.length (ds ++ "]"))).
Proof.
  intros Hne Hds Hcls. unfold match_many.
  rewrite Ascii.eqb_refl, append_assoc. simpl append.
  rewrite (run_all cls ds "]" b Hds Hcls), drop_app.
  destruct ds as [|c ds]; [contradiction|]. simpl String.length.
  rewrite Ascii.eqb_refl, length_append. simpl. do 2 f_equal. lia.
Qed.

(** It does not match a bracket that is followed by no character of [X]. *)
Lemma match_many_no_run (cls : ascii -> bool) (c : ascii) (t : string) :
  cls c = false -> match_many cls (String "[" (String c t)) = None.
Proof. intros H. unfold match_many. simpl. now rewrite H. Qed.

(** One pass over a match between two stretches without a bracket. *)
Lemma pass_removes (pattern : string -> option nat) (a r b : string) :
  at_bracket pattern ->
  occurs "[" a = false -> occurs "[" b = false ->
  pattern (String "[" (r ++ b)) = Some (S (String.length r)) ->
  re_sub pattern (a ++ String "[" (r ++ b)) = (a ++ b)%string.
Proof.
  intros Hp Ha Hb Hm. unfold re_sub.
  rewrite (sub_from_plain_prefix pattern a _ Hp Ha).
  rewrite (sub_from_match pattern "[" r b Hm).
  fold (re_sub pattern b). now rewrite (re_sub_plain pattern b Hp Hb).
Qed.

(** One pass over a bracket at which the pattern does not match. *)
Lemma pass_keeps (pattern : string -> option nat) (a t : string) :
  at_bracket pattern ->
  occurs "[" a = false -> occurs "[" t = false ->
  pattern (String "[" t) = None ->
  re_sub pattern (a ++ String "[" t) = (a ++ String "[" t)%string.
Proof.
  intros Hp Ha Ht Hm. unfold re_sub.
  rewrite (sub_from_plain_prefix pattern a _ Hp Ha).
  simpl sub_from. rewrite Hm.
  fold (re_sub pattern t). now rewrite (re_sub_plain pattern t Hp Ht).
Qed.

Lemma is_lower_not_digit (c : ascii) : is_lower c = true -> is_digit c = false.
Proof.
  unfold is_lower, is_digit. intros H. apply andb_prop in H as [H1 H2].
  apply Nat.leb_le in H1. apply andb_false_iff. right.
  apply Nat.leb_gt. lia.
Qed.

Lemma is_lower_not_bracket (c : ascii) :
  is_lower c = true -> Ascii.eqb c "[" = false /\ Ascii.eqb c "010" = false.
Proof.
  intros H. split.
  - destruct (Ascii.eqb_spec c "[") as [->|]; [discriminate H | reflexivity].
  - destruct (Ascii.eqb_spec c "010") as [->|]; [discriminate H | reflexivity].
Qed.

End References.

(** X14. A reference between two stretches of text that have neither a
    newline nor an opening bracket is deleted, and nothing else: a bracketed
    number, a bracketed lower-case letter, or a bracketed run of [i]. *)
Theorem prettify_deletes_reference (a r b : string) :
  plain a = true -> plain b = true -> reference r ->
  prettify (a ++ r ++ b) = (a ++ b)%string.
Proof.
  unfold plain. intros Ha Hb Hr.
  apply andb_prop in Ha as [Han Hab]. apply andb_prop in Hb as [Hbn Hbb].
  apply negb_true_iff in Han, Hab, Hbn, Hbb.
  assert (Hplain : occurs "[" (a ++ b) = false)
    by (rewrite occurs_app, Hab, Hbb; reflexivity).
  assert (H3 : forall cls, re_sub (match_many cls) (a ++ b) = (a ++ b)%string)
    by (intros cls; apply re_sub_plain;
        [apply match_many_at_bracket | exact Hplain]).
  assert (H2 : forall cls, re_sub (match_one cls) (a ++ b) = (a ++ b)%string)
    by (intros cls; apply re_sub_plain;
        [apply match_one_at_bracket | exact Hplain]).
  unfold prettify. destruct Hr as [ds Hne Hds|c Hc|ds Hne Hds].
  - (* a bracketed number *)
    assert (Hnl : occurs "010" (a ++ ("[" ++ ds ++ "]") ++ b) = false).
    { rewrite !occurs_app, Han, Hbn. simpl.
      now rewrite (all_in_occurs is_digit "010" ds). }
    rewrite (remove_newlines_plain _ Hnl). simpl append.
    rewrite (pass_removes (match_many is_digit) a (ds ++ "]") b);
      [now rewrite H2, H3 | apply match_many_at_bracket | exact Hab
       | exact Hbb | now apply match_many_reference].
  - (* a bracketed letter *)
    destruct (is_lower_not_bracket c Hc) as [Hcb Hcn].
    assert (Hnl : occurs "010" (a ++ String "[" (String c "]") ++ b) = false).
    { rewrite occurs_app, Han. simpl. now rewrite Hcn, Hbn. }
    rewrite (remove_newlines_plain _ Hnl). simpl append.
    rewrite (pass_keeps (match_many is_digit) a (String c (String "]" b)));
      [ | apply match_many_at_bracket | exact Hab
        | simpl; now rewrite Hcb, Hbb
        | apply match_many_no_run; now apply is_lower_not_digit ].
    change (String c (String "]" b)) with (String c "]" ++ b)%string.
    rewrite (pass_removes (match_one is_lower) a (String c "]") b);
      [now rewrite H3 | apply match_one_at_bracket | exact Hab | exact Hbb |].
    simpl. now rewrite Hc.
  - (* a bracketed run of i *)
    assert (Hnl : occurs "010" (a ++ ("[" ++ ds ++ "]") ++ b) = false).
    { rewrite !occurs_app, Han, Hbn. simpl.
      now rewrite (all_in_occurs is_i "010" ds). }
    assert (Hin : occurs "[" ((ds ++ "]") ++ b) = false).
    { rewrite !occurs_app, Hbb. simpl.
      now rewrite (all_in_occurs is_i "[" ds). }
    rewrite (remove_newlines_plain _ Hnl). simpl append.
    destruct ds as [|i ds]; [contradiction|].
    pose proof Hds as Hds'. simpl in Hds'.
    apply andb_prop in Hds' as [Hi Hds'].
    apply Ascii.eqb_eq in Hi. subst i.
    rewrite (pass_keeps (match_many is_digit) a _);
      [ | apply match_many_at_bracket | exact Hab | exact Hin
        | now apply match_many_no_run ].
    destruct ds as [|i ds].
    + simpl append.
      change (String "i" (String "]" b)) with (String "i" "]" ++ b)%string.
      rewrite (pass_removes (match_one is_lower) a (String "i" "]") b);
        [now rewrite H3 | apply match_one_at_bracket | exact Hab | exact Hbb
         | reflexivity].
    + simpl in Hds'. apply andb_prop in Hds' as [Hi Hds'].
      apply Ascii.eqb_eq in Hi. subst i.
      rewrite (pass_keeps (match_one is_lower) a _);
        [ | apply match_one_at_bracket | exact Hab | exact Hin | reflexivity ].
      apply pass_removes;
        [apply match_many_at_bracket | exact Hab | exact Hbb |].
      now apply match_many_reference.
Qed.

Lemma prettify_deletes_reference_witness :
  prettify "The city[12] lies on the Seine." = "The city lies on the Seine."%string
  /\ prettify "The city[b] lies on the Seine." = "The city lies on the Seine."%string
  /\ prettify "The city[iii] lies on the Seine." = "The city lies on the Seine."%string.
Proof.
  split; [|split].
  - apply (prettify_deletes_reference "The city" "[12]" " lies on the Seine.");
      [reflexivity | reflexivity |].
    apply (ref_number "12"); [discriminate | reflexivity].
  - apply (prettify_deletes_reference "The city" "[b]" " lies on the Seine.");
      [reflexivity | reflexivity |].
    apply (ref_letter "b"). reflexivity.
  - apply (prettify_deletes_reference "The city" "[iii]" " lies on the Seine.");
      [reflexivity | reflexivity |].
    apply (ref_roman "iii"); [discriminate | reflexivity].
Defined.

Section OnePass.

Lemma sub_from_keep (pattern : string -> option nat) (c : ascii) (t : string) :
  pattern (String c t) = None ->
  sub_from pattern 0 (String c t) = String c (sub_from pattern 0 t).
Proof. intros H. simpl. now rewrite H. Qed.

Lemma is_digit_not_lower (c : ascii) : is_digit c = true -> is_lower c = false.
Proof.
  unfold is_lower, is_digit. intros H. apply andb_prop in H as [H1 H2].
  apply Nat.leb_le in H2. apply andb_false_iff. left.
  apply Nat.leb_gt. lia.
Qed.

Lemma is_digit_not_i (c : ascii) : is_digit c = true -> is_i c = false.
Proof.
  intros H. unfold is_i.
  destruct (Ascii.eqb_spec c "i") as [->|]; [discriminate H | reflexivity].
Qed.

(** The pattern [\[X+\]] does not match where the run of [X] is followed by
    another opening bracket. *)
Lemma match_many_open (cls : ascii -> bool) (ds t : string) :
  all_in cls ds = true -> cls "["%char = false ->
  match_many cls (String "[" (ds ++ String "[" t)) = None.
Proof.
  intros Hds Hcls. unfold match_many.
  rewrite Ascii.eqb_refl, (run_all cls ds "[" t Hds Hcls), drop_app.
  now destruct (String.length ds).
Qed.

End OnePass.

(** X15. Each pattern is applied once, in the order numbers, letters, runs
    of [i].  So a bracketed number that has a bracketed letter inside loses
    the letter and stays: what [prettify] returns can hold a reference, and
    applying it again deletes more. *)
Theorem prettify_makes_one_pass (a ds b : string) (c : ascii) :
  plain a = true -> plain b = true ->
  ds <> EmptyString -> all_in is_digit ds = true -> is_lower c = true ->
  prettify (a ++ "[" ++ ds ++ "[" ++ String c "]" ++ "]" ++ b)
  = (a ++ "[" ++ ds ++ "]" ++ b)%string.
Proof.
  unfold plain. intros Ha Hb Hne Hds Hc.
  apply andb_prop in Ha as [Han Hab]. apply andb_prop in Hb as [Hbn Hbb].
  apply negb_true_iff in Han, Hab, Hbn, Hbb.
  destruct (is_lower_not_bracket c Hc) as [Hcb Hcn].
  assert (Hdb : occurs "[" ds = false)
    by now apply (all_in_occurs is_digit).
  assert (Hdn : occurs "010" ds = false)
    by now apply (all_in_occurs is_digit).
  assert (Htail : occurs "[" (String c (String "]" (String "]" b))) = false)
    by (simpl; now rewrite Hcb, Hbb).
  assert (Hend : occurs "[" (String "]" b) = false)
    by (simpl; exact Hbb).
  unfold prettify. simpl append.
  rewrite remove_newlines_plain
    by (rewrite occurs_app, Han; simpl; rewrite occurs_app, Hdn; simpl;
        now rewrite Hcn, Hbn).
  (* the numbers: nothing matches *)
  assert (P1 : re_sub (match_many is_digit)
                 (a ++ String "[" (ds ++ String "[" (String c (String "]" (String "]" b)))))
               = (a ++ String "[" (ds ++ String "[" (String c (String "]" (String "]" b)))))%string).
  { unfold re_sub.
    rewrite (sub_from_plain_prefix _ a _ (match_many_at_bracket _) Hab).
    rewrite sub_from_keep by now apply match_many_open.
    rewrite (sub_from_plain_prefix _ ds _ (match_many_at_bracket _) Hdb).
    rewrite sub_from_keep
      by (apply match_many_no_run; now apply is_lower_not_digit).
    fold (re_sub (match_many is_digit) (String c (String "]" (String "]" b)))).
    now rewrite (re_sub_plain _ _ (match_many_at_bracket _) Htail). }
  rewrite P1.
  (* the letters: the inner reference goes *)
  assert (P2 : re_sub (match_one is_lower)
                 (a ++ String "[" (ds ++ String "[" (String c (String "]" (String "]" b)))))
               = (a ++ String "[" (ds ++ String "]" b))%string).
  { unfold re_sub.
    rewrite (sub_from_plain_prefix _ a _ (match_one_at_bracket _) Hab).
    rewrite sub_from_keep.
    - rewrite (sub_from_plain_prefix _ ds _ (match_one_at_bracket _) Hdb).
      change (String c (String "]" (String "]" b)))
        with (String c "]" ++ String "]" b)%string.
      rewrite (sub_from_match (match_one is_lower) "[" (String c "]")
                 (String "]" b)) by (simpl; now rewrite Hc).
      fold (re_sub (match_one is_lower) (String "]" b)).
      now rewrite (re_sub_plain _ _ (match_one_at_bracket _) Hend).
    - destruct ds as [|d ds']; [contradiction|]. simpl in Hds.
      apply andb_prop in Hds as [Hd _].
      simpl. destruct (ds' ++ _)%string; [reflexivity|].
      now rewrite (is_digit_not_lower d Hd).
  }
  rewrite P2.
  (* the runs of i: nothing matches *)
  unfold re_sub.
  rewrite (sub_from_plain_prefix _ a _ (match_many_at_bracket _) Hab).
  destruct ds as [|d ds']; [contradiction|].
  pose proof Hds as Hds'. simpl in Hds'. apply andb_prop in Hds' as [Hd _].
  rewrite sub_from_keep
    by (apply match_many_no_run; now apply is_digit_not_i).
  fold (re_sub (match_many is_i) (String d ds' ++ String "]" b)).
  rewrite (re_sub_plain _ _ (match_many_at_bracket _));
    [reflexivity|].
  rewrite occurs_app, Hdb. exact Hend.
Qed.

Lemma prettify_makes_one_pass_witness :
  prettify "Seine[12[a]] river" = "Seine[12] river"%string
  /\ prettify "Seine[12] river" = "Seine river"%string.
Proof.
  split; [|reflexivity].
  apply (prettify_makes_one_pass "Seine" "12" " river" "a");
    [reflexivity | reflexivity | discriminate | reflexivity | reflexivity].
Defined.

(** ** The article of a subject *)

Section ArticleText.

Lemma py_len_append (a b : string) : py_len (a ++ b) = py_len a + py_len b.
Proof.
  induction a as [|c a IH]; simpl; [reflexivity|].
  destruct (is_continuation c); simpl; now rewrite IH.
Qed.

(** The loop on the dictionary builds the text [add_paragraphs] gives. *)
Lemma paragraph_loop_text (subject : string) (articles : dict string)
    (ps : list string) :
  forall t,
    paragraph_loop subject (set subject t articles) ps
    = set subject (add_paragraphs t ps) articles.
Proof.
  assert (G : forall (d : dict string) v, get_default subject "" (set subject v d) = v)
    by (intros d v; unfold get_default; now rewrite get_set_same).
  induction ps as [|p ps IH]; intros t; [reflexivity|].
  cbn [paragraph_loop add_paragraphs]. cbv zeta.
  rewrite !G, !set_set.
  destruct (py_len (t ++ prettify p) <? 500); [|reflexivity].
  apply IH.
Qed.

(** The text is made of whole paragraphs: all of them, each followed by a
    space, or those up to the first one with which 500 characters are
    reached, that one followed by nothing. *)
Lemma add_paragraphs_whole (ps : list string) :
  forall acc,
    py_len acc <= 500 ->
    (add_paragraphs acc ps = (acc ++ joined ps)%string
     /\ py_len (acc ++ joined ps) <= 500)
    \/ exists pre p post,
         ps = pre ++ p :: post
         /\ add_paragraphs acc ps = (acc ++ joined pre ++ prettify p)%string
         /\ 500 <= py_len (acc ++ joined pre ++ prettify p)
         /\ py_len (acc ++ joined pre) <= 500.
Proof.
  induction ps as [|p ps IH]; intros acc Hacc.
  - left. simpl. now rewrite append_empty_r.
  - assert (J : joined (p :: ps) = (prettify p ++ " " ++ joined ps)%string)
      by reflexivity.
    cbn [add_paragraphs]. cbv zeta.
    destruct (Nat.ltb_spec (py_len (acc ++ prettify p)) 500) as [Hlt|Hge].
    + destruct (IH ((acc ++ prettify p) ++ " ")%string) as [[E Hl]|H].
      * rewrite !py_len_append in *. simpl. lia.
      * left. rewrite J, E. rewrite !append_assoc in *. now split.
      * destruct H as (pre & q & post & -> & E & H500 & Hpre).
        right. exists (p :: pre), q, post.
        assert (J' : joined (p :: pre)
                     = (prettify p ++ " " ++ joined pre)%string)
          by reflexivity.
        rewrite J', E. rewrite !append_assoc in *.
        split; [reflexivity | split; [reflexivity | split; assumption]].
    + right. exists [], p, ps.
      split; [reflexivity|]. cbn [joined fold_right].
      replace (acc ++ "" ++ prettify p)%string with (acc ++ prettify p)%string
        by reflexivity.
      rewrite append_empty_r.
      split; [reflexivity | split; assumption].
Qed.

End ArticleText.

(** X16. For a page whose paragraphs are read, [get_paragraph] sets the
    article of the subject to whole prettified paragraphs: all of them, each
    followed by a space, when no more than 500 characters come together; or
    those up to the first paragraph with which 500 characters are reached,
    with spaces between them and none at the end. *)
Theorem get_paragraph_takes_whole_paragraphs (fetch : string -> wiki_page)
    (articles : dict string) (subject link : string) (ps : list string) :
  fetch link = Paragraphs ps ->
  get_paragraph fetch articles subject link
  = set subject (add_paragraphs "" ps) articles
  /\ ((add_paragraphs "" ps = joined ps /\ py_len (joined ps) <= 500)
      \/ exists pre p post,
           ps = pre ++ p :: post
           /\ add_paragraphs "" ps = (joined pre ++ prettify p)%string
           /\ 500 <= py_len (joined pre ++ prettify p)
           /\ py_len (joined pre) <= 500).
Proof.
  intros Hfetch. split.
  - unfold get_paragraph. rewrite Hfetch. apply paragraph_loop_text.
  - destruct (add_paragraphs_whole ps ""%string) as [H|H]; simpl; [lia | |].
    + left. exact H.
    + right. exact H.
Qed.

Lemma get_paragraph_takes_whole_paragraphs_witness :
  get_paragraph (fun _ => Paragraphs ["Paris[1] is"; "big"]) [("Rome", "x")]
    "Paris" "link"
  = [("Rome", "x"); ("Paris", "Paris is big ")].
Proof.
  destruct (get_paragraph_takes_whole_paragraphs
              (fun _ => Paragraphs ["Paris[1] is"; "big"]) [("Rome", "x")]
              "Paris" "link" ["Paris[1] is"; "big"] eq_refl) as [H _].
  rewrite H. reflexivity.
Defined.

(** ** The articles of a run *)

Section Articles.
Variable links_of : string -> result (list string).
Variable fetch : string -> wiki_page.

(** One subject whose links are read: it gets its article, or none. *)
Lemma get_paragraph_article (articles : dict string) (subject : string)
    (link : string) :
  ~ In subject (keys articles) ->
  get_paragraph fetch articles subject link
  = articles ++ match fetch link with
                | FetchRaises => []
                | XPathRaises => [(subject, ""%string)]
                | Paragraphs ps => [(subject, add_paragraphs "" ps)]
                end.
Proof.
  intros Hnew. unfold get_paragraph. destruct (fetch link) as [| |ps].
  - now rewrite app_nil_r.
  - now apply set_new.
  - rewrite paragraph_loop_text. now apply set_new.
Qed.

Lemma article_of_keys (e : string * wiki_subject) :
  keys (article_of links_of fetch e) = []
  \/ keys (article_of links_of fetch e) = [fst e].
Proof.
  unfold article_of.
  destruct (links_of (wikidata (snd e))) as [[|l [|l2 [|l3 ls]]]|err];
    try (now left); destruct (fetch l); (now left) || (now right).
Qed.

Lemma get_articles_acc (subjects : dict wiki_subject) :
  forall articles,
    NoDup (keys articles ++ keys subjects) ->
    (forall s d, In (s, d) subjects ->
                 exists links, links_of (wikidata d) = Ok links) ->
    get_articles links_of fetch subjects articles
    = (articles ++ flat_map (article_of links_of fetch) subjects, Finished).
Proof.
  induction subjects as [|[s d] rest IH]; intros articles Hnd Hok.
  - simpl. now rewrite app_nil_r.
  - assert (Hrest : forall s' d', In (s', d') rest ->
                      exists links, links_of (wikidata d') = Ok links)
      by (intros s' d' Hin; apply (Hok s' d'); now right).
    assert (Hs : ~ In s (keys articles)).
    { intros Hin. apply (NoDup_app_disjoint _ _ Hnd s Hin). now left. }
    assert (Hskip : NoDup (keys articles ++ keys rest))
      by (simpl in Hnd; now apply NoDup_remove_1 in Hnd).
    assert (Hadd : forall v, NoDup (keys (articles ++ [(s, v)]) ++ keys rest)).
    { intros v. unfold keys in *. rewrite map_app, <- app_assoc. exact Hnd. }
    destruct (Hok s d (or_introl eq_refl)) as [links Hlinks].
    cbn [get_articles flat_map]. unfold article_of at 1. cbn [fst snd].
    rewrite Hlinks.
    destruct links as [|l [|l2 [|l3 ls]]]; cbn [List.length Nat.eqb Nat.ltb Nat.leb].
    + now rewrite IH.
    + rewrite (get_paragraph_article articles s l Hs).
      destruct (fetch l) as [| |ps]; rewrite IH; try assumption;
        try (now rewrite <- app_assoc); try apply Hadd.
      now rewrite app_nil_r.
    + rewrite (get_paragraph_article articles s l Hs).
      destruct (fetch l) as [| |ps]; rewrite IH; try assumption;
        try (now rewrite <- app_assoc); try apply Hadd.
      now rewrite app_nil_r.
    + now rewrite IH.
Qed.

Lemma get_articles_app (l1 l2 : dict wiki_subject) :
  forall articles,
    get_articles links_of fetch (l1 ++ l2) articles
    = match get_articles links_of fetch l1 articles with
      | (a, Finished) => get_articles links_of fetch l2 a
      | r => r
      end.
Proof.
  induction l1 as [|[s d] l1 IH]; intros articles; [reflexivity|].
  cbn [app get_articles].
  destruct (links_of (wikidata d)) as [links|err]; [|reflexivity].
  destruct (List.length links =? 0); [apply IH|].
  destruct (2 <? List.length links); [apply IH|].
  destruct links; apply IH.
Qed.

End Articles.

(** X17. With no subject twice in the input and no exception of the
    wikidata requests, [get_articles] goes through, and the articles are,
    in the order of the input, one for each subject with one or two links
    whose page is fetched: the text built from the page of the first link,
    or the empty text when the paragraphs cannot be read.  A subject with
    no link, with more than two, or whose page cannot be fetched gets no
    article, and the run goes on. *)
Theorem get_articles_collects (links_of : string -> result (list string))
    (fetch : string -> wiki_page) (subjects : dict wiki_subject) :
  wf subjects ->
  (forall s d, In (s, d) subjects ->
               exists links, links_of (wikidata d) = Ok links) ->
  get_articles links_of fetch subjects []
  = (flat_map (article_of links_of fetch) subjects, Finished).
Proof.
  intros Hwf Hok.
  now rewrite (get_articles_acc links_of fetch subjects [] Hwf Hok).
Qed.

Lemma get_articles_collects_witness :
  let links_of := fun url =>
    if String.eqb url "wd1" then Ok ["l1"; "l1b"]
    else if String.eqb url "wd2" then Ok []
    else if String.eqb url "wd3" then Ok ["l3"; "x"; "y"]
    else Ok ["l4"] in
  let fetch := fun link =>
    if String.eqb link "l1" then Paragraphs ["Paris[1] is"; "big"]
    else FetchRaises in
  get_articles links_of fetch
    [("Paris", {| wikidata := "wd1" |}); ("Rome", {| wikidata := "wd2" |});
     ("Oslo", {| wikidata := "wd3" |}); ("Bonn", {| wikidata := "wd4" |})] []
  = ([("Paris", "Paris is big ")], Finished).
Proof.
  intros links_of fetch.
  rewrite (get_articles_collects links_of fetch).
  - reflexivity.
  - unfold wf. simpl. repeat constructor; simpl; intuition discriminate.
  - intros s d [E|[E|[E|[E|[]]]]]; injection E as <- <-; eexists; reflexivity.
Defined.

(** X18. An exception of a wikidata request is not caught: [get_articles]
    ends with it at that subject, with the articles of the subjects before,
    and the subjects after it are not looked at. *)
Theorem wikidata_exception_ends_get_articles
    (links_of : string -> result (list string)) (fetch : string -> wiki_page)
    (before : dict wiki_subject) (s : string) (d : wiki_subject)
    (rest : dict wiki_subject) (e : exn) :
  wf before ->
  (forall s' d', In (s', d') before ->
                 exists links, links_of (wikidata d') = Ok links) ->
  links_of (wikidata d) = Raise e ->
  get_articles links_of fetch (before ++ (s, d) :: rest) []
  = (flat_map (article_of links_of fetch) before, Raised e).
Proof.
  intros Hwf Hok He.
  rewrite get_articles_app.
  rewrite (get_articles_acc links_of fetch before [] Hwf Hok).
  simpl. now rewrite He.
Qed.

Lemma wikidata_exception_ends_get_articles_witness :
  let links_of := fun url =>
    if String.eqb url "wd1" then Ok ["l1"]
    else if String.eqb url "wd2" then Raise LibraryError
    else Ok ["l3"] in
  let fetch := fun _ => Paragraphs ["text"] in
  get_articles links_of fetch
    [("Paris", {| wikidata := "wd1" |}); ("Rome", {| wikidata := "wd2" |});
     ("Oslo", {| wikidata := "wd3" |})] []
  = ([("Paris", "text ")], Raised LibraryError).
Proof.
  intros links_of fetch.
  change [("Paris", {| wikidata := "wd1" |}); ("Rome", {| wikidata := "wd2" |});
          ("Oslo", {| wikidata := "wd3" |})]
    with ([("Paris", {| wikidata := "wd1" |})]
            ++ ("Rome", {| wikidata := "wd2" |})
               :: [("Oslo", {| wikidata := "wd3" |})]).
  rewrite (wikidata_exception_ends_get_articles links_of fetch
             [("Paris", {| wikidata := "wd1" |})] "Rome"
             {| wikidata := "wd2" |} [("Oslo", {| wikidata := "wd3" |})]
             LibraryError).
  - reflexivity.
  - unfold wf. simpl. repeat constructor; simpl; tauto.
  - intros s d [E|[]]; injection E as <- <-; eexists; reflexivity.
  - reflexivity.
Defined.

(** * Running twice *)

Section SecondRun.

Lemma main_loop_all_done (self : DocRetriever)
    (req_get : string -> Z -> response) (fuel : nat) (n_docs n_file : Z)
    (done : list string) (subjects : dict subject_data) :
  (forall s, In s (keys subjects) -> is_done done s = true) ->
  forall st,
    main_loop self req_get fuel n_docs n_file done subjects st = (st, Finished).
Proof.
  induction subjects as [|[s sd] rest IH]; intros H st; simpl; [reflexivity|].
  rewrite (H s) by now left.
  apply IH. intros s' Hs'. apply H. now right.
Qed.

(** Every subject of a file a run wrote under a number of its own is done
    for a run that starts from the directory afterwards. *)
Lemma written_subjects_are_done (dir : dict batch_t)
    (units : list (Z * batch_t)) (s : string) :
  NoDup (map fst units) ->
  In s (unit_keys units) ->
  is_done (get_done_subjects (docs_dir_after dir units)) s = true.
Proof.
  intros Hnd Hs. apply is_done_spec.
  unfold unit_keys in Hs. apply in_flat_map in Hs as ([nr b] & Hu & Hin).
  exists (file_name nr, b). split; [|exact Hin].
  apply get_Some_In. now apply get_after_written.
Qed.

End SecondRun.

(** X19. After a run that started from an empty directory and went through,
    every subject of the input is done: a second run from the directory it
    left, whatever its upstream and its parameters, writes no file. *)
Theorem second_run_writes_nothing (self : DocRetriever)
    (req_get req_get' : string -> Z -> response)
    (subjects : dict subject_data) (fuel fuel' : nat)
    (n_docs n_file n_docs' n_file' : Z) (units : list (Z * batch_t)) :
  wf subjects ->
  main self req_get [] subjects fuel n_docs n_file = (units, Finished) ->
  (forall s, In s (keys subjects) ->
             is_done (get_done_subjects (docs_dir_after [] units)) s = true)
  /\ main self req_get' (docs_dir_after [] units) subjects fuel' n_docs' n_file'
     = ([], Finished).
Proof.
  intros Hwf Hmain.
  destruct (main_files self req_get [] subjects fuel n_docs n_file Hwf
              units Finished Hmain) as (Hnum & _ & _ & Hkeys).
  specialize (Hkeys eq_refl).
  assert (Hnd : NoDup (map fst units)).
  { rewrite Hnum. apply NoDup_map_NoDup_ForallPairs; [|apply seq_NoDup].
    intros x y _ _. apply Nat2Z.inj. }
  assert (Hall : pending (get_done_subjects []) subjects = keys subjects).
  { unfold pending, keys. generalize (map fst subjects) as l.
    induction l as [|x l IH]; [reflexivity|].
    cbn [filter]. change (is_done (get_done_subjects []) x) with false.
    cbn [negb]. f_equal. exact IH. }
  assert (Hdone : forall s, In s (keys subjects) ->
            is_done (get_done_subjects (docs_dir_after [] units)) s = true).
  { intros s Hs. apply written_subjects_are_done; [exact Hnd|].
    now rewrite Hkeys, Hall. }
  split; [exact Hdone|].
  unfold main. now rewrite main_loop_all_done.
Qed.

Lemma second_run_writes_nothing_witness :
  let subjects := [("A", {| works_api_url := "urlA" |});
                   ("B", {| works_api_url := "urlB" |});
                   ("C", {| works_api_url := "urlC" |})] in
  let units := fst (main (Sample.retriever ["graph"; "maps"]) Sample.six_seven
                      [] subjects 5 50 10) in
  keys (docs_dir_after [] units) = ["1.json"; "2.json"]
  /\ main (Sample.retriever ["graph"; "maps"]) Sample.empty_pages
       (docs_dir_after [] units) subjects 0 50 10
     = ([], Finished).
Proof.
  intros subjects units. split; [vm_compute; reflexivity|].
  destruct (second_run_writes_nothing (Sample.retriever ["graph"; "maps"])
              Sample.six_seven Sample.empty_pages subjects 5 0 50 10 50 10
              units) as [_ H].
  - unfold wf, subjects. simpl.
    repeat constructor; simpl; intuition discriminate.
  - vm_compute. reflexivity.
  - exact H.
Defined.

(** * The last word of the abstract *)

Section LastWord.

Lemma string_snoc (s : string) :
  s <> EmptyString ->
  exists init last, s = (init ++ String last "")%string.
Proof.
  induction s as [|c s IH]; [contradiction|]. intros _.
  destruct s as [|d s].
  - exists EmptyString, c. reflexivity.
  - destruct IH as (init & last & E); [discriminate|].
    exists (String c init), last. simpl. now rewrite <- E.
Qed.

Lemma spaced_snoc (ws : list string) (w : string) :
  spaced (ws ++ [w]) = ((spaced ws ++ w) ++ " ")%string.
Proof.
  rewrite spaced_app. simpl. now rewrite append_assoc.
Qed.

(** Words followed by a space each do not end with a full stop. *)
Lemma spaced_no_stop (ws : list string) (p : string) :
  spaced ws <> (p ++ ".")%string.
Proof.
  destruct ws as [|w ws] using rev_ind.
  - simpl. destruct p; discriminate.
  - rewrite spaced_snoc. intros H. apply snoc_inj in H as [_ H].
    discriminate H.
Qed.

Lemma ends_with_stop_space (x w : string) (ws : list string) :
  x = spaced ws ->
  ends_with ((x ++ w) ++ " ") ". " <-> ends_with w ".".
Proof.
  intros Hx. unfold ends_with. split.
  - intros [p H].
    change (p ++ ". ")%string with (p ++ String "." " ")%string in H.
    assert (H' : ((x ++ w) ++ " ")%string = ((p ++ ".") ++ " ")%string)
      by (rewrite H, append_assoc; reflexivity).
    apply append_cancel_r in H'.
    destruct (string_dec w EmptyString) as [->|Hw].
    + rewrite append_empty_r in H'. subst x.
      exfalso. exact (spaced_no_stop ws p H').
    + destruct (string_snoc w Hw) as (init & last & ->).
      rewrite <- append_assoc in H'.
      apply snoc_inj in H' as [_ ->]. now exists init.
  - intros [q ->]. exists (x ++ q)%string.
    now rewrite !append_assoc.
Qed.

Lemma terminate_fixed (s : string) :
  terminate s = s <-> ends_with s ". ".
Proof.
  rewrite <- last2_ends_with. unfold terminate.
  destruct (String.eqb_spec (last2 s) ". ") as [E|N]; [tauto|].
  split; [|contradiction]. intros H.
  apply (f_equal String.length) in H. rewrite length_append in H.
  simpl in H. lia.
Qed.

End LastWord.

(** X20. Where the reconstructed abstract has a last word, the separator
    ['. '] is left out exactly when that word ends with a full stop;
    otherwise it is put behind the space that follows the word. *)
Theorem separator_depends_on_last_word (title : string)
    (abstract_idx : dict (list Z)) (ws : list string) (w : string) :
  abstract_words abstract_idx = ws ++ [w] ->
  let abstract := build_abstract abstract_idx in
  (ends_with w "." ->
   sentence_text (Some title) abstract_idx = Ok (abstract ++ title)%string)
  /\ (~ ends_with w "." ->
      sentence_text (Some title) abstract_idx
      = Ok (abstract ++ ". " ++ title)%string).
Proof.
  intros Hws abstract.
  assert (Habs : abstract = ((spaced ws ++ w) ++ " ")%string).
  { unfold abstract. rewrite build_abstract_spaced, Hws. apply spaced_snoc. }
  assert (Hiff : terminate abstract = abstract <-> ends_with w ".").
  { rewrite terminate_fixed, Habs. now apply (ends_with_stop_space _ w ws). }
  unfold sentence_text. fold abstract. split.
  - intros Hw. apply Hiff in Hw. now rewrite Hw.
  - intros Hw. unfold terminate.
    destruct (String.eqb_spec (last2 abstract) ". ") as [E|N].
    + exfalso. apply Hw, Hiff. unfold terminate. now rewrite E, String.eqb_refl.
    + now rewrite append_assoc.
Qed.

Lemma separator_depends_on_last_word_witness :
  sentence_text (Some "Title") [("ends.", [1%Z]); ("It", [0%Z])]
  = Ok "It ends. Title"%string
  /\ sentence_text (Some "Title") [("goes", [1%Z]); ("It", [0%Z])]
     = Ok "It goes . Title"%string.
Proof.
  split.
  - destruct (separator_depends_on_last_word "Title"
                [("ends.", [1%Z]); ("It", [0%Z])] ["It"] "ends." eq_refl)
      as [H _].
    rewrite H; [reflexivity | now exists "ends"%string].
  - destruct (separator_depends_on_last_word "Title"
                [("goes", [1%Z]); ("It", [0%Z])] ["It"] "goes" eq_refl)
      as [_ H].
    rewrite H; [reflexivity|].
    intros [p Hp]. destruct p as [|a [|b [|c [|d [|e p]]]]]; discriminate Hp.
Defined.
